(** * batch-compress: the batch orchestration engine of [main.py]

    A shallow embedding of the planning and aggregation code of
    [main.py] (file discovery, batch planning, the per-batch 7z
    invocation, verification and the collection of results), with the
    properties of the specification stated against it.

    Conventions of the model:
    - a [pathlib.Path] is the list of its components; [str] joins them
      with "/" and [name] is the last component;
    - the file system is a finite map from paths to nodes; the scan of
      the input folder, [is_file], [exists] and [stat().st_size] read it
      and [mkdir(parents=True, exist_ok=True)] extends it;
    - everything the run does to the outside world is recorded, in
      order, in a trace of events (log lines, directory creation,
      spawned processes, the confirmation prompt, the report file);
    - what the outside world answers (the exit status of a spawned 7z,
      the size of an archive once 7z has run, the line typed at the
      prompt, the order in which the futures complete) is read from an
      environment record;
    - the thread pool is modelled by one order of events: the workers
      in the order of submission, then the collecting loop in the order
      of completion that the environment gives; the number of threads
      and the progress bar have no part in what is returned or written;
    - byte sizes and counters are unbounded Python integers, so [Z];
      list positions, batch numbers and the batch size are [nat]
      ([validate_args] rejects a batch size below one); the compression
      ratio is a Python float, so a binary64 number;
    - the model follows a run whose calls to the operating system, other
      than [subprocess.run] and the [stat] of an archive, return: the
      input folder can be listed, the output folder can be created
      ([mkdir_raises] says when it cannot), the log file and the report
      file can be opened, a line can be read at the prompt, and the
      thread pool can be made (a thread count of at least one, which
      [validate_args] ensures). *)

From Stdlib Require Import Ascii SpecFloat.
From stdpp Require Import base numbers list strings gmap sorting pretty.
From Equations Require Import Equations.

Local Open Scope string_scope.
Local Open Scope Z_scope.
Local Open Scope list_scope.

(** ** Paths *)

Abbreviation Path := (list string).

(** [str(p)] *)
Definition str (p : Path) : string := String.concat "/" p.

(** [p.name] *)
Definition name (p : Path) : string := default "" (last p).

(** [p / s] *)
Definition joinpath (p : Path) (s : string) : Path := p ++ [s].

(** The components of [p] below [folder], when [p] lies in or under it. *)
Fixpoint relative_to (folder p : Path) : option Path :=
  match folder, p with
  | [], _ => Some p
  | c :: folder', d :: p' => if decide (c = d) then relative_to folder' p' else None
  | _ :: _, [] => None
  end.

(** Order of [Path] objects: component by component, each component by
    code point, a proper prefix first. *)
Fixpoint path_leb (p q : Path) : bool :=
  match p, q with
  | [], _ => true
  | _ :: _, [] => false
  | c :: p', d :: q' =>
      match String.compare c d with
      | Lt => true
      | Eq => path_leb p' q'
      | Gt => false
      end
  end.

Definition path_le (p q : Path) : Prop := path_leb p q = true.

#[global] Instance path_le_dec : RelDecision path_le.
Proof. intros p q. unfold path_le. apply _. Defined.

(** [sorted(files)] *)
Definition sorted (files : list Path) : list Path := merge_sort path_le files.

(** ** The file system *)

Inductive node : Type :=
  | File (st_size : Z)
  | Dir.

Abbreviation FS := (gmap (list string) node).

Definition is_file (fs : FS) (p : Path) : bool :=
  match fs !! p with
  | Some (File _) => true
  | _ => false
  end.

Definition path_exists (fs : FS) (p : Path) : bool :=
  match fs !! p with
  | Some _ => true
  | None => false
  end.

(** [p.stat().st_size]; only asked of paths that the scan returned. *)
Definition st_size (fs : FS) (p : Path) : Z :=
  match fs !! p with
  | Some (File z) => z
  | _ => 0
  end.

(** [folder.rglob('*')]: every entry strictly below [folder]. *)
Definition rglob (fs : FS) (folder : Path) : list Path :=
  List.filter (λ p, match relative_to folder p with
                    | Some (_ :: _) => true
                    | _ => false
                    end) (map_to_list fs).*1.

(** [folder.iterdir()]: the direct children of [folder], which is taken
    to be a directory (on another path [iterdir] raises). *)
Definition iterdir (fs : FS) (folder : Path) : list Path :=
  List.filter (λ p, match relative_to folder p with
                    | Some [_] => true
                    | _ => false
                    end) (map_to_list fs).*1.

(** The proper ancestors of [p] followed by [p], shortest first. *)
Fixpoint ancestors_and_self (p : Path) : list Path :=
  match p with
  | [] => []
  | c :: p' => [c] :: map (cons c) (ancestors_and_self p')
  end.

(** [p.mkdir(parents=True, exist_ok=True)]: every missing directory on
    the way to [p], and [p] itself, is created.  This is the file system
    after a call that returns; see [mkdir_raises]. *)
Definition mkdir_parents (fs : FS) (p : Path) : FS :=
  foldl (λ m d, match m !! d with
                | Some _ => m
                | None => <[d := Dir]> m
                end) fs (ancestors_and_self p).

(** Whether [p.mkdir(parents=True, exist_ok=True)] raises: it does when
    [p] is a regular file ([FileExistsError]) and when a folder on the
    way to [p] is one ([NotADirectoryError]). *)
Definition mkdir_raises (fs : FS) (p : Path) : bool :=
  existsb (is_file fs) (ancestors_and_self p).

(** ** FileCatalog: [get_files_recursive] and [get_files_flat] *)

Section Catalog.

(** [fnmatch.fnmatch name pattern] of the Python standard library. *)
Variable fnmatch : string → string → bool.

(** Lines 202-206: the loop over the patterns, left at the first match. *)
Fixpoint excluded_recursive (f : Path) (exclude_patterns : list string) : bool :=
  match exclude_patterns with
  | [] => false
  | pattern :: rest =>
      if fnmatch (name f) pattern || fnmatch (str f) pattern then true
      else excluded_recursive f rest
  end.

(** Lines 227-231. *)
Fixpoint excluded_flat (f : Path) (exclude_patterns : list string) : bool :=
  match exclude_patterns with
  | [] => false
  | pattern :: rest =>
      if fnmatch (name f) pattern then true
      else excluded_flat f rest
  end.

Fixpoint scan (is_f : Path → bool) (excluded : Path → bool)
    (entries : list Path) : list Path :=
  match entries with
  | [] => []
  | f :: rest =>
      if is_f f then
        if excluded f then scan is_f excluded rest
        else f :: scan is_f excluded rest
      else scan is_f excluded rest
  end.

Definition get_files_recursive (fs : FS) (folder : Path)
    (exclude_patterns : list string) : list Path :=
  sorted (scan (is_file fs) (λ f, excluded_recursive f exclude_patterns)
            (rglob fs folder)).

Definition get_files_flat (fs : FS) (folder : Path)
    (exclude_patterns : list string) : list Path :=
  sorted (scan (is_file fs) (λ f, excluded_flat f exclude_patterns)
            (iterdir fs folder)).

End Catalog.

(** A matcher for the patterns used in the examples below: [*] matches
    any run of characters (also "/"), [?] any one character, every
    other character itself.  This is [fnmatch.fnmatch] on POSIX for
    patterns without "[". *)
Fixpoint glob (pat : list Ascii.ascii) (s : list Ascii.ascii) {struct pat} : bool :=
  match pat with
  | [] => match s with [] => true | _ => false end
  | p :: pat' =>
      if Ascii.eqb p "*"%char then
        (fix star (s : list Ascii.ascii) : bool :=
           glob pat' s || match s with [] => false | _ :: s' => star s' end) s
      else
        match s with
        | [] => false
        | c :: s' => (Ascii.eqb p "?"%char || Ascii.eqb p c) && glob pat' s'
        end
  end.

Definition fnmatch_posix (nm pattern : string) : bool :=
  glob (String.list_ascii_of_string pattern) (String.list_ascii_of_string nm).

(** The test of recursive mode as the specification words it: some
    pattern matches the base name of the file or its path relative to
    the scanned folder.  Compare [excluded_recursive], which matches
    [str f], the path with the scanned folder in front. *)
Definition excluded_by_relative_path (fnmatch : string → string → bool)
    (folder f : Path) (exclude_patterns : list string) : bool :=
  existsb (λ pattern,
             fnmatch (name f) pattern
             || fnmatch (str (default f (relative_to folder f))) pattern)
    exclude_patterns.

Definition fs_demo : FS :=
  list_to_map
    [ (["in"], Dir);
      (["in"; "a.log"], File 3);
      (["in"; "b.tmp"], File 4);
      (["in"; "c.txt"], File 5);
      (["in"; "sub"], Dir);
      (["in"; "sub"; "d.txt"], File 7);
      (["in"; "sub"; "e.log"], File 9) ].

(** ** The outside world *)

(** What [subprocess.run] can do: return a completed process, or raise. *)
Inductive exn : Type :=
  | FileNotFoundError (msg : string)
  | OtherException (msg : string).

Inductive completed : Type :=
  | CompletedProcess (returncode : Z) (stderr : string)
  | Raise (e : exn).

(** One planned batch: the tuple
    [(batch_num, batch_files, archive_name, batch_input_size)]. *)
Record Batch : Type := mkBatch {
  batch_num : nat;
  batch_files : list Path;
  archive_name : Path;
  batch_input_size : Z
}.

Record Env : Type := mkEnv {
  (** [subprocess.run(cmd, capture_output=True, text=True, shell=False)] *)
  subprocess_run : list string → completed;
  (** the archive once its 7z process is over: its size, or [None]
      when [archive_name.exists()] is false *)
  archive_stat : Path → option Z;
  (** the line typed at the prompt, after [.strip().lower()] *)
  confirm : string;
  (** the order in which [as_completed] hands the futures back *)
  as_completed : list Batch → list Batch;
  (** an exception that leaves the worker of a batch, raised outside
      the handlers of [compress_batch], if any *)
  worker_fault : nat → option string;
  (** [datetime.now().isoformat()] *)
  now : string
}.

(** ** Events *)

Inductive level : Type := DEBUG | INFO | WARNING | ERROR.

Inductive message : Type :=
  | MsgNoFilesFound (input_folder : string)
  | MsgFound (nfiles : nat) (total_input_size : Z) (total_batches : nat)
  | MsgExcluding (patterns : list string)
  | MsgDryRunMode
  | MsgSkipping (archive : string)
  | MsgNoBatches
  | MsgBatch (num total_batches nfiles : nat) (size : Z) (archive : string)
  | MsgBatchFile (file : string)
  | MsgDryRunComplete
  | MsgCancelled
  | MsgCompressing (nfiles : nat) (archive : string)
  | MsgExecuting (cmd : list string)
  | MsgCreated (archive : string)
  | MsgFailedToCreate (archive : string) (returncode : Z)
  | MsgStderr (stderr : string)
  | MsgToolNotFound
  | MsgUnexpectedError (archive : string) (err : string)
  | MsgVerifying (archive : string)
  | MsgVerificationPassed (archive : string)
  | MsgVerificationFailed (archive : string)
  | MsgErrorVerifying (archive : string) (err : string)
  | MsgVerificationFailedFor (archive : string)
  | MsgBatchRaised (num : nat) (err : string)
  | MsgMetadataExported (path : string).

(** One record of [metadata["archives"]]. *)
Record ArchiveRecord : Type := mkArchiveRecord {
  rec_batch_num : nat;
  rec_archive_name : string;
  rec_file_count : nat;
  rec_input_size : Z;
  rec_output_size : option Z;
  rec_files : list string
}.

(** ** Numbers *)

(** A Python [float] is an IEEE 754 binary64 number: 53 bits of
    precision, exponents up to 1024, every operation rounded to the
    nearest representable number, ties to even. *)
Module binary64.

Definition prec : Z := 53.
Definition emax : Z := 1024.

(** [float(z)] *)
Definition of_int (z : Z) : spec_float := binary_normalize prec emax z 0 false.

Definition sub : spec_float → spec_float → spec_float := SFsub prec emax.
Definition mul : spec_float → spec_float → spec_float := SFmul prec emax.
Definition div : spec_float → spec_float → spec_float := SFdiv prec emax.

End binary64.

(** A number as it is stored under a key of the report: an [int] or a
    [float]. *)
Inductive number : Type :=
  | PyInt (z : Z)
  | PyFloat (x : spec_float).

(** An [int] as the operand of a true division, which takes its
    operands as they are and rounds the quotient only. *)
Definition int_operand (z : Z) : spec_float :=
  match z with
  | 0 => S754_zero false
  | Z.pos m => S754_finite false m 0
  | Z.neg m => S754_finite true m 0
  end.

(** [a / b] on two [int]s with [b] positive: the float nearest to the
    quotient.  Python raises [OverflowError] where the quotient is too
    large for a float, which takes a dividend of 2^1023 or more; the
    properties below that speak of a quotient keep below that. *)
Definition truediv (a b : Z) : spec_float :=
  binary64.div (int_operand a) (int_operand b).

(** The [metadata] dictionary; the last two keys are set at export. *)
Record Metadata : Type := mkMetadata {
  created_at : string;
  md_input_folder : string;
  md_output_folder : string;
  total_files : nat;
  md_total_input_size : Z;
  md_batch_size : nat;
  md_compression_level : Z;
  archives : list ArchiveRecord;
  md_total_output_size : option Z;
  compression_ratio : option number
}.

(** [Spawn cmd] is a call of [subprocess.run] with [cmd], [Prompt n]
    the call of [input] that asks to confirm [n] batches, [WriteJson]
    the [json.dump] of the report into the file at [path]. *)
Inductive event : Type :=
  | Log (lvl : level) (msg : message)
  | Mkdir (p : Path)
  | Spawn (cmd : list string)
  | Prompt (nbatches : nat)
  | WriteJson (path : string) (m : Metadata).

(** The file system after the events of a trace, as far as the model
    determines it: a spawned process and a written report change it in
    ways only the environment knows. *)
Definition apply_event (fs : option FS) (ev : event) : option FS :=
  match ev with
  | Log _ _ => fs
  | Prompt _ => fs
  | Mkdir p => (λ m, mkdir_parents m p) <$> fs
  | Spawn _ => None
  | WriteJson _ _ => None
  end.

Definition fs_after (fs : FS) (trace : list event) : option FS :=
  foldl apply_event (Some fs) trace.

(** Truth value of an [Optional[str]] and of an [Optional[int]]. *)
Definition truthy_str (o : option string) : bool :=
  match o with
  | Some s => negb (String.eqb s "")
  | None => false
  end.

Definition truthy_int (o : option Z) : bool :=
  match o with
  | Some z => negb (z =? 0)
  | None => false
  end.

(** ** ArchiveExecutor: [compress_batch] *)

(** Lines 257-267: the command line. *)
Definition compress_cmd (batch_files : list Path) (archive_name : Path)
    (compression_level : Z) (password split_size : option string) : list string :=
  let cmd := ["7z"; "a"; "-mx=" +:+ pretty compression_level; str archive_name] in
  let cmd := if truthy_str password
             then cmd ++ ["-p" +:+ default "" password; "-mhe=on"]
             else cmd in
  let cmd := if truthy_str split_size
             then cmd ++ ["-v" +:+ default "" split_size]
             else cmd in
  cmd ++ map str batch_files.

Definition compress_batch (env : Env) (batch_files : list Path) (archive_name : Path)
    (compression_level : Z) (password split_size : option string)
    : (bool * option Z) * list event :=
  let cmd := compress_cmd batch_files archive_name compression_level password split_size in
  let pre := [Log INFO (MsgCompressing (length batch_files) (name archive_name));
              Log DEBUG (MsgExecuting cmd);
              Spawn cmd] in
  match subprocess_run env cmd with
  | CompletedProcess returncode stderr =>
      if returncode =? 0 then
        match archive_stat env archive_name with
        | Some size => ((true, Some size), pre ++ [Log INFO (MsgCreated (name archive_name))])
        | None => ((true, None), pre ++ [Log INFO (MsgCreated (name archive_name))])
        end
      else
        ((false, None),
         pre ++ [Log ERROR (MsgFailedToCreate (name archive_name) returncode)]
             ++ (if String.eqb stderr "" then [] else [Log ERROR (MsgStderr stderr)]))
  | Raise (FileNotFoundError _) =>
      ((false, None), pre ++ [Log ERROR MsgToolNotFound])
  | Raise (OtherException e) =>
      ((false, None), pre ++ [Log ERROR (MsgUnexpectedError (name archive_name) e)])
  end.

(** ** VerificationRunner: [verify_archive] *)

Definition verify_archive (env : Env) (archive_path : Path) : bool * list event :=
  let cmd := ["7z"; "t"; str archive_path] in
  let pre := [Log INFO (MsgVerifying (name archive_path)); Spawn cmd] in
  match subprocess_run env cmd with
  | CompletedProcess returncode stderr =>
      if returncode =? 0 then
        (true, pre ++ [Log INFO (MsgVerificationPassed (name archive_path))])
      else
        (false,
         pre ++ [Log ERROR (MsgVerificationFailed (name archive_path))]
             ++ (if String.eqb stderr "" then [] else [Log ERROR (MsgStderr stderr)]))
  | Raise (FileNotFoundError e) | Raise (OtherException e) =>
      (false, pre ++ [Log ERROR (MsgErrorVerifying (name archive_path) e)])
  end.

(** ** BatchPlanner and BatchOrchestrator: [compress_in_batches] *)

Record Args : Type := mkArgs {
  input_folder : Path;
  output_folder : Path;
  batch_size : nat;
  output_prefix : string;
  extension : string;
  auto : bool;
  threads : nat;
  dry_run : bool;
  compression_level : Z;
  exclude_patterns : list string;
  overwrite : bool;
  password : option string;
  split_size : option string;
  verify : bool;
  recursive : bool;
  metadata_file : option string
}.

(** [range(start, stop, step)] for a step that is not negative, as the
    loop it stands for: [i = start; while i < stop: yield i; i += step].
    Python refuses a step of zero. *)
Equations? range (start stop step : nat) : list nat by wf (stop - start)%nat lt :=
  range start stop 0 := [];
  range start stop (S s) with decide (start < stop)%nat := {
    | left _ => start :: range (start + S s)%nat stop (S s);
    | right _ => [] }.
Proof. lia. Qed.

(** Line 387. *)
Definition total_batches_of (nfiles batch_size : nat) : nat :=
  ((nfiles + batch_size - 1) / batch_size)%nat.

(** Line 414: [Path(output_folder) / f"{output_prefix}_{batch_num}.{extension}"]. *)
Definition archive_path (a : Args) (batch_num : nat) : Path :=
  joinpath (output_folder a)
    (output_prefix a +:+ "_" +:+ pretty batch_num +:+ "." +:+ extension a).

Definition sum_sizes (fs : FS) (files : list Path) : Z :=
  foldr (λ f acc, st_size fs f + acc) 0 files.

(** Lines 411-422: the body of the planning loop, over the values that
    [range(0, len(files), batch_size)] yields. *)
Fixpoint plan (fs : FS) (a : Args) (files : list Path) (indices : list nat)
    : list Batch * list event :=
  match indices with
  | [] => ([], [])
  | i :: rest =>
      let batch_num := (i / batch_size a + 1)%nat in
      let batch_files := take (batch_size a) (drop i files) in
      let archive_name := archive_path a batch_num in
      let '(batches, evs) := plan fs a files rest in
      if path_exists fs archive_name && negb (overwrite a) then
        (batches, Log WARNING (MsgSkipping (name archive_name)) :: evs)
      else
        (mkBatch batch_num batch_files archive_name (sum_sizes fs batch_files) :: batches,
         evs)
  end.

(** Lines 429-432: the preview of the batches. *)
Definition preview (total_batches : nat) (batches : list Batch) : list event :=
  flat_map (λ b,
    Log INFO (MsgBatch (batch_num b) total_batches (length (batch_files b))
                (batch_input_size b) (name (archive_name b)))
    :: map (λ f, Log DEBUG (MsgBatchFile (name f))) (batch_files b)) batches.

(** The counters of the run and the list under [metadata["archives"]]. *)
Record Totals : Type := mkTotals {
  success_count : Z;
  fail_count : Z;
  total_output_size : Z;
  appended : list ArchiveRecord
}.

(** What [future.result()] gives for the worker of a batch. *)
Inductive future_result : Type :=
  | Result (r : bool * option Z)
  | Raised (e : string).

Definition worker (env : Env) (a : Args) (b : Batch) : future_result * list event :=
  match worker_fault env (batch_num b) with
  | Some e => (Raised e, [])
  | None =>
      let '(r, evs) := compress_batch env (batch_files b) (archive_name b)
                         (compression_level a) (password a) (split_size a) in
      (Result r, evs)
  end.

(** Lines 485-492. *)
Definition record_of (b : Batch) (archive_size : option Z) : ArchiveRecord :=
  {| rec_batch_num := batch_num b;
     rec_archive_name := name (archive_name b);
     rec_file_count := length (batch_files b);
     rec_input_size := batch_input_size b;
     rec_output_size := archive_size;
     rec_files := map name (batch_files b) |}.

(** Lines 470-497: one turn of the loop over the completed futures. *)
Definition collect (env : Env) (a : Args) (st : Totals * list event) (b : Batch)
    : Totals * list event :=
  let '(t, tr) := st in
  match (worker env a b).1 with
  | Result (true, archive_size) =>
      let t := mkTotals (success_count t + 1) (fail_count t)
                 (total_output_size t) (appended t) in
      let t := if truthy_int archive_size
               then mkTotals (success_count t) (fail_count t)
                      (total_output_size t + default 0 archive_size) (appended t)
               else t in
      let '(failed, evs) :=
        if verify a then
          let '(ok, evs) := verify_archive env (archive_name b) in (negb ok, evs)
        else (false, []) in
      if failed then
        let t := mkTotals (success_count t - 1) (fail_count t)
                   (total_output_size t) (appended t) in
        let t := mkTotals (success_count t) (fail_count t + 1)
                   (total_output_size t) (appended t) in
        (t, tr ++ evs ++ [Log ERROR (MsgVerificationFailedFor (name (archive_name b)))])
      else
        (mkTotals (success_count t) (fail_count t) (total_output_size t)
           (appended t ++ [record_of b archive_size]),
         tr ++ evs)
  | Result (false, _) =>
      (mkTotals (success_count t) (fail_count t + 1) (total_output_size t) (appended t), tr)
  | Raised e =>
      (mkTotals (success_count t) (fail_count t + 1) (total_output_size t) (appended t),
       tr ++ [Log ERROR (MsgBatchRaised (batch_num b) e)])
  end.

(** Lines 446-503: every batch is handed to a worker, then the futures
    are collected in the order in which they complete.  The events of
    the workers are listed in the order of submission.  The pool is
    made with [threads] workers, at least one. *)
Definition execute (env : Env) (a : Args) (tr : list event) (batches : list Batch)
    : Totals * list event :=
  let tr := tr ++ flat_map (λ b, (worker env a b).2) batches in
  foldl (collect env a) (mkTotals 0 0 0 [], tr) (as_completed env batches).

(** Line 508 (and line 663):
    [(1 - total_output_size / total_input_size) * 100 if total_input_size > 0 else 0].
    The quotient of the two [int]s is a [float], so are the difference
    and the product; the other branch is the [int] 0. *)
Definition ratio (total_output_size total_input_size : Z) : number :=
  if 0 <? total_input_size
  then PyFloat (binary64.mul
                  (binary64.sub (binary64.of_int 1)
                     (truediv total_output_size total_input_size))
                  (binary64.of_int 100))
  else PyInt 0.

(** Lines 400-409: the report as it is before any batch has run. *)
Definition initial_metadata (env : Env) (a : Args) (nfiles : nat)
    (total_input_size : Z) : Metadata :=
  {| created_at := now env;
     md_input_folder := str (input_folder a);
     md_output_folder := str (output_folder a);
     total_files := nfiles;
     md_total_input_size := total_input_size;
     md_batch_size := batch_size a;
     md_compression_level := compression_level a;
     archives := [];
     md_total_output_size := None;
     compression_ratio := None |}.

(** Lines 506-512: the report is written when a destination was given
    and at least one batch succeeded.  By then [metadata["archives"]]
    holds the records appended while collecting. *)
Definition export (a : Args) (metadata : Metadata) (t : Totals)
    (total_input_size : Z) : list event :=
  if truthy_str (metadata_file a) && (0 <? success_count t) then
    let metadata :=
      {| created_at := created_at metadata;
         md_input_folder := md_input_folder metadata;
         md_output_folder := md_output_folder metadata;
         total_files := total_files metadata;
         md_total_input_size := md_total_input_size metadata;
         md_batch_size := md_batch_size metadata;
         md_compression_level := md_compression_level metadata;
         archives := archives metadata ++ appended t;
         md_total_output_size := Some (total_output_size t);
         compression_ratio := Some (ratio (total_output_size t) total_input_size) |} in
    [WriteJson (default "" (metadata_file a)) metadata;
     Log INFO (MsgMetadataExported (default "" (metadata_file a)))]
  else [].

Inductive outcome : Type :=
  | Returns (successful_count failed_count total_input_size total_output_size : Z)
  | ZeroDivisionError.

Record Run : Type := mkRun {
  result : outcome;
  trace : list event
}.

Section Orchestrator.

Variable fnmatch : string → string → bool.
Variable env : Env.

(** Lines 375-378. *)
Definition catalog (fs : FS) (a : Args) : list Path :=
  if recursive a
  then get_files_recursive fnmatch fs (input_folder a) (exclude_patterns a)
  else get_files_flat fnmatch fs (input_folder a) (exclude_patterns a).

(** The batches of the execution plan, lines 396-422. *)
Definition planned (fs : FS) (a : Args) : list Batch * list event :=
  let files := catalog fs a in
  plan (mkdir_parents fs (output_folder a)) a files
    (range 0 (length files) (batch_size a)).

Definition compress_in_batches (fs : FS) (a : Args) : Run :=
  let files := catalog fs a in
  match files with
  | [] => mkRun (Returns 0 0 0 0) [Log ERROR (MsgNoFilesFound (str (input_folder a)))]
  | _ :: _ =>
  let total_input_size := sum_sizes fs files in
  match batch_size a with
  | O => mkRun ZeroDivisionError []
  | S _ =>
  let total_batches := total_batches_of (length files) (batch_size a) in
  let tr := [Log INFO (MsgFound (length files) total_input_size total_batches)]
            ++ (match exclude_patterns a with
                | [] => []
                | _ :: _ => [Log INFO (MsgExcluding (exclude_patterns a))]
                end)
            ++ (if dry_run a then [Log INFO MsgDryRunMode] else [])
            ++ [Mkdir (output_folder a)] in
  let metadata := initial_metadata env a (length files) total_input_size in
  let '(batches, evs) := planned fs a in
  let tr := tr ++ evs in
  match batches with
  | [] => mkRun (Returns 0 0 total_input_size 0) (tr ++ [Log INFO MsgNoBatches])
  | _ :: _ =>
  let tr := tr ++ preview total_batches batches in
  if dry_run a then
    mkRun (Returns (Z.of_nat (length batches)) 0 total_input_size 0)
      (tr ++ [Log INFO MsgDryRunComplete])
  else
  let tr := if auto a then tr else tr ++ [Prompt (length batches)] in
  if negb (auto a) && negb (String.eqb (confirm env) "y") then
    mkRun (Returns 0 0 total_input_size 0) (tr ++ [Log WARNING MsgCancelled])
  else
  let '(t, tr) := execute env a tr batches in
  let tr := tr ++ export a metadata t total_input_size in
  mkRun (Returns (success_count t) (fail_count t) total_input_size (total_output_size t)) tr
  end end end.

End Orchestrator.

(** ** Vocabulary of the properties *)

(** The batch that the loop body makes at offset [i]. *)
Definition batch_at (fs : FS) (a : Args) (files : list Path) (i : nat) : Batch :=
  let num := (i / batch_size a + 1)%nat in
  let chunk := take (batch_size a) (drop i files) in
  mkBatch num chunk (archive_path a num) (sum_sizes fs chunk).

(** The test of line 417. *)
Definition skipped (fs : FS) (a : Args) (b : Batch) : bool :=
  path_exists fs (archive_name b) && negb (overwrite a).

(** How a batch ends.  [compressed] is the archive size reported by a
    worker whose compression succeeded. *)
Definition compressed (env : Env) (a : Args) (b : Batch) : option (option Z) :=
  match (worker env a b).1 with
  | Result (true, archive_size) => Some archive_size
  | _ => None
  end.

Definition verification_failed (env : Env) (a : Args) (b : Batch) : bool :=
  verify a && negb (verify_archive env (archive_name b)).1.

(** Compression succeeded and verification failed. *)
Definition demoted (env : Env) (a : Args) (b : Batch) : bool :=
  bool_decide (is_Some (compressed env a b)) && verification_failed env a b.

(** Compression succeeded and verification passed or was not asked for. *)
Definition succeeded (env : Env) (a : Args) (b : Batch) : bool :=
  bool_decide (is_Some (compressed env a b)) && negb (verification_failed env a b).

Definition archive_size_of (env : Env) (a : Args) (b : Batch) : Z :=
  match compressed env a b with
  | Some (Some size) => size
  | _ => 0
  end.

Definition record_if_succeeded (env : Env) (a : Args) (b : Batch) : list ArchiveRecord :=
  match compressed env a b with
  | Some archive_size =>
      if verification_failed env a b then [] else [record_of b archive_size]
  | None => []
  end.

Definition indicator (c : bool) : Z := if c then 1 else 0.

Definition sumZ {A} (f : A → Z) (l : list A) : Z :=
  foldr (λ x acc, f x + acc) 0 l.

(** Every future is handed back once. *)
Definition completes_each_once (env : Env) : Prop :=
  ∀ batches, as_completed env batches ≡ₚ batches.

Definition is_log_or_mkdir (out : Path) (ev : event) : Prop :=
  match ev with
  | Log _ _ => True
  | Mkdir p => p = out
  | _ => False
  end.

(** The events that one turn of the collecting loop adds. *)
Definition collect_events (env : Env) (a : Args) (b : Batch) : list event :=
  match (worker env a b).1 with
  | Result (true, _) =>
      if verify a then
        (verify_archive env (archive_name b)).2
        ++ (if (verify_archive env (archive_name b)).1 then []
            else [Log ERROR (MsgVerificationFailedFor (name (archive_name b)))])
      else []
  | Result (false, _) => []
  | Raised e => [Log ERROR (MsgBatchRaised (batch_num b) e)]
  end.

(** The command lines of a batch: the one that makes its archive and
    the one that tests it. *)
Definition batch_cmd (a : Args) (b : Batch) : list string :=
  compress_cmd (batch_files b) (archive_name b) (compression_level a)
    (password a) (split_size a).

Definition verify_cmd (b : Batch) : list string :=
  ["7z"; "t"; str (archive_name b)].

(** An event of the execution phase: a log line, or a process spawned
    for one of the given batches. *)
Definition is_log_or_spawn_for (a : Args) (batches : list Batch) (ev : event) : Prop :=
  match ev with
  | Log _ _ => True
  | Spawn cmd => ∃ b, b ∈ batches ∧ (cmd = batch_cmd a b ∨ cmd = verify_cmd b)
  | _ => False
  end.

(** An event of the planning phase. *)
Definition is_planning_event (out : Path) (ev : event) : Prop :=
  match ev with
  | Log _ _ => True
  | Mkdir p => p = out
  | Prompt _ => True
  | _ => False
  end.

(** The counters after all the batches of a plan have been collected. *)
Definition final_totals (env : Env) (a : Args) (batches : list Batch) : Totals :=
  (execute env a [] batches).1.

Definition is_skip_warning (ev : event) : Prop :=
  match ev with
  | Log WARNING (MsgSkipping _) => True
  | _ => False
  end.

(** ** Sample runs *)

(** An environment in which every 7z [a] succeeds and leaves an archive
    of 100 bytes, the test of [archive_1] fails, and the futures come
    back in reverse order of submission. *)
Definition env_verify_fails : Env :=
  {| subprocess_run := λ cmd,
       match cmd with
       | ["7z"; "t"; "out/archive_1.7z"] => CompletedProcess 2 "CRC Failed"
       | _ => CompletedProcess 0 ""
       end;
     archive_stat := λ _, Some 100;
     confirm := "y";
     as_completed := reverse;
     worker_fault := λ _, None;
     now := "2024-01-01T00:00:00" |}.

(** An environment in which 7z cannot be started for [archive_1]. *)
Definition env_tool_missing : Env :=
  {| subprocess_run := λ cmd,
       match cmd with
       | "7z" :: "a" :: _ :: "out/archive_1.7z" :: _ =>
           Raise (FileNotFoundError "[Errno 2] No such file or directory: '7z'")
       | _ => CompletedProcess 0 ""
       end;
     archive_stat := λ _, Some 100;
     confirm := "y";
     as_completed := reverse;
     worker_fault := λ _, None;
     now := "2024-01-01T00:00:00" |}.

Definition args_demo : Args :=
  {| input_folder := ["in"]; output_folder := ["out"]; batch_size := 3;
     output_prefix := "archive"; extension := "7z"; auto := true; threads := 2;
     dry_run := false; compression_level := 5; exclude_patterns := [];
     overwrite := false; password := Some "secret"; split_size := None;
     verify := true; recursive := true; metadata_file := Some "report.json" |}.

Definition args_dry_run : Args :=
  {| input_folder := ["in"]; output_folder := ["out"]; batch_size := 3;
     output_prefix := "archive"; extension := "7z"; auto := false; threads := 1;
     dry_run := true; compression_level := 5; exclude_patterns := [];
     overwrite := false; password := None; split_size := None;
     verify := false; recursive := true; metadata_file := None |}.

(** The sample tree with both archives of a previous run in place. *)
Definition fs_archived : FS :=
  <[ ["out"; "archive_1.7z"] := File 100 ]>
    (<[ ["out"; "archive_2.7z"] := File 100 ]> (<[ ["out"] := Dir ]> fs_demo)).

(** The first batch of the sample run. *)
Definition batch_one : Batch :=
  mkBatch 1 [["in"; "a.log"]; ["in"; "b.tmp"]; ["in"; "c.txt"]]
    ["out"; "archive_1.7z"] 12.

(** The second batch of the sample run. *)
Definition batch_two : Batch :=
  mkBatch 2 [["in"; "sub"; "d.txt"]; ["in"; "sub"; "e.log"]]
    ["out"; "archive_2.7z"] 16.

(** Finds an event in the trace of a sample run. *)
Ltac find_event :=
  vm_compute; repeat first [apply list_elem_of_here | apply list_elem_of_further].

(** ** The phases of a run *)

(** Lines 388-396: what a run over a catalog that is not empty does
    before it plans. *)
Definition header_events (fs : FS) (a : Args) (files : list Path) : list event :=
  [Log INFO (MsgFound (length files) (sum_sizes fs files)
               (total_batches_of (length files) (batch_size a)))]
  ++ (match exclude_patterns a with
      | [] => []
      | _ :: _ => [Log INFO (MsgExcluding (exclude_patterns a))]
      end)
  ++ (if dry_run a then [Log INFO MsgDryRunMode] else [])
  ++ [Mkdir (output_folder a)].

(** Lines 388-432: the events up to the end of the preview. *)
Definition planning_events (fs : FS) (a : Args) (files : list Path)
    (p : list Batch * list event) : list event :=
  (header_events fs a files ++ p.2)
  ++ preview (total_batches_of (length files) (batch_size a)) p.1.

(** The events of the workers and of the collecting loop. *)
Definition execution_events (env : Env) (a : Args) (batches : list Batch) : list event :=
  flat_map (λ b, (worker env a b).2) batches
  ++ flat_map (collect_events env a) (as_completed env batches).

(** The kinds of events that reach outside the process. *)
Definition is_outside_event (ev : event) : bool :=
  match ev with
  | Log _ _ => false
  | _ => true
  end.

(** A run that asks before it compresses, and the user who says no. *)
Definition args_prompt : Args :=
  {| input_folder := ["in"]; output_folder := ["out"]; batch_size := 3;
     output_prefix := "archive"; extension := "7z"; auto := false; threads := 1;
     dry_run := false; compression_level := 5; exclude_patterns := ["*.tmp"];
     overwrite := true; password := None; split_size := Some "100M";
     verify := false; recursive := true; metadata_file := Some "report.json" |}.


(** The same environment with the futures completing in another order. *)
Definition with_order (env : Env) (order : list Batch → list Batch) : Env :=
  {| subprocess_run := subprocess_run env;
     archive_stat := archive_stat env;
     confirm := confirm env;
     as_completed := order;
     worker_fault := worker_fault env;
     now := now env |}.

(** ** The command line: [validate_args], [check_tools] and [main] *)

(** The namespace that [parse_args] returns, each entry with the type
    that its argparse declaration gives it, for a command line without
    [--config]. *)
Record Namespace : Type := mkNamespace {
  ns_input : option string;
  ns_output : option string;
  ns_batch : Z;
  ns_prefix : string;
  ns_ext : string;
  ns_auto : bool;
  ns_threads : Z;
  ns_dry_run : bool;
  ns_compression_level : Z;
  ns_password : option string;
  ns_split_size : option string;
  ns_exclude : list string;
  ns_recursive : bool;
  ns_overwrite : bool;
  ns_verify : bool;
  ns_metadata : option string;
  ns_check : bool;
  ns_logfile : string;
  ns_verbose : bool;
  ns_version : bool
}.

(** What [parse_size] does with a string: it returns a number of bytes,
    raises [ValueError] when the string does not have the form of a
    size, or fails otherwise. *)
Inductive size_outcome : Type :=
  | Size (bytes : Z)
  | ValueError (msg : string)
  | OtherError (what : string).

(** The messages of [parser.error]. *)
Inductive usage_error : Type :=
  | ErrInputOutputRequired
  | ErrBatch
  | ErrThreads
  | ErrCompressionLevel
  | ErrInputMissing (input : string)
  | ErrInputNotDirectory (input : string)
  | ErrPrefix
  | ErrSplitSize (msg : string).

(** [validate_args] returns, or leaves through [parser.error], or lets
    an exception of [parse_size] other than [ValueError] through. *)
Inductive validation : Type :=
  | Passes
  | ParserError (e : usage_error)
  | Propagates (what : string).

Definition is_dir (fs : FS) (p : Path) : bool :=
  match fs !! p with
  | Some Dir => true
  | _ => false
  end.

(** Line 175: the nine characters that a prefix must not hold: angle
    brackets, colon, double quote (code 34), slash, backslash, bar,
    question mark and star. *)
Definition invalid_chars : list ascii :=
  ["<"; ">"; ":"; ascii_of_nat 34; "/"; "\"; "|"; "?"; "*"]%char.

(** [char in s] for a single character. *)
Definition char_in (c : ascii) (s : string) : bool :=
  existsb (Ascii.eqb c) (String.list_ascii_of_string s).

Inductive main_message : Type :=
  | MVersion (v : string)
  | MCheckingTools
  | MToolFound (tool path : string)
  | MToolNotFound (tool : string)
  | MNo7z
  | MDownloadFrom
  | MNoTqdm
  | MRule
  | MSummary
  | MTotalBatches (n : Z)
  | MSuccessful (n : Z)
  | MFailed (n : Z)
  | MInputSize (n : Z)
  | MOutputSize (n : Z)
  | MCompression (percent : number)
  | MSomeFailed.

Inductive main_event : Type :=
  | Print (s : string)
  | SetupLogging (logfile : string) (verbose : bool)
  | MainLog (lvl : level) (msg : main_message)
  | Usage (e : usage_error)
  | OfRun (ev : event).

(** How [main] ends: by returning its exit code, through the
    [SystemExit] of [parser.error], or through an exception. *)
Inductive main_exit : Type :=
  | Return (code : Z)
  | SystemExit (code : Z)
  | Uncaught (what : string).

Record MainRun : Type := mkMainRun {
  exit_status : main_exit;
  main_trace : list main_event
}.

Definition version_string : string := "2.0.0".

Section Main.

Variable fnmatch : string → string → bool.
(** [pathlib.Path(s)] *)
Variable Path_of : string → Path.
(** [shutil.which(tool)] *)
Variable which : string → option string.
Variable TQDM_AVAILABLE : bool.
(** [parse_size] (lines 98-119), whose arithmetic is on floats. *)
Variable parse_size : string → size_outcome.
Variable env : Env.

Definition validate_args (fs : FS) (args : Namespace) : validation :=
  if ns_check args || ns_version args then Passes
  else if negb (truthy_str (ns_input args)) || negb (truthy_str (ns_output args))
  then ParserError ErrInputOutputRequired
  else if ns_batch args <? 1 then ParserError ErrBatch
  else if ns_threads args <? 1 then ParserError ErrThreads
  else if (ns_compression_level args <? 0) || (9 <? ns_compression_level args)
  then ParserError ErrCompressionLevel
  else
    let input_path := Path_of (default "" (ns_input args)) in
    if negb (path_exists fs input_path)
    then ParserError (ErrInputMissing (default "" (ns_input args)))
    else if negb (is_dir fs input_path)
    then ParserError (ErrInputNotDirectory (default "" (ns_input args)))
    else if existsb (λ char, char_in char (ns_prefix args)) invalid_chars
    then ParserError ErrPrefix
    else if truthy_str (ns_split_size args) then
      match parse_size (default "" (ns_split_size args)) with
      | Size _ => Passes
      | ValueError e => ParserError (ErrSplitSize e)
      | OtherError what => Propagates what
      end
    else Passes.

Definition check_tools : gmap string (option string) * list main_event :=
  foldl (λ '(results, evs) tool,
           let path := which tool in
           (<[tool := path]> results,
            evs ++ [if truthy_str path
                    then MainLog INFO (MToolFound tool (default "" path))
                    else MainLog WARNING (MToolNotFound tool)]))
    (∅, [MainLog INFO MCheckingTools]) ["7z"; "zip"; "rar"].

(** Lines 631-648: the arguments that [main] passes on. *)
Definition args_of (args : Namespace) : Args :=
  {| input_folder := Path_of (default "" (ns_input args));
     output_folder := Path_of (default "" (ns_output args));
     batch_size := Z.to_nat (ns_batch args);
     output_prefix := ns_prefix args;
     extension := ns_ext args;
     auto := ns_auto args;
     threads := Z.to_nat (ns_threads args);
     dry_run := ns_dry_run args;
     compression_level := ns_compression_level args;
     exclude_patterns := ns_exclude args;
     overwrite := ns_overwrite args;
     password := ns_password args;
     split_size := ns_split_size args;
     verify := ns_verify args;
     recursive := ns_recursive args;
     metadata_file := ns_metadata args |}.

(** Lines 651-670: the summary and the exit code. *)
Definition summary (success failed input_size output_size : Z) : MainRun :=
  let total := success + failed in
  if 0 <? total then
    let evs := [MainLog INFO MRule; MainLog INFO MSummary; MainLog INFO MRule;
                MainLog INFO (MTotalBatches total);
                MainLog INFO (MSuccessful success);
                MainLog INFO (MFailed failed);
                MainLog INFO (MInputSize input_size)] in
    let evs := if 0 <? output_size
               then evs ++ [MainLog INFO (MOutputSize output_size);
                            MainLog INFO (MCompression (ratio output_size input_size))]
               else evs in
    if 0 <? failed
    then mkMainRun (Return 1) (evs ++ [MainLog WARNING MSomeFailed])
    else mkMainRun (Return 0) evs
  else mkMainRun (Return 0) [].

(** Lines 594-670, for a command line without [--config] (lines 600-606
    are skipped) and a log file that [setup_logging] can open. *)
Definition main (fs : FS) (args : Namespace) : MainRun :=
  if ns_version args
  then mkMainRun (Return 0) [Print ("batch-compress version " +:+ version_string)]
  else
  let evs := [SetupLogging (ns_logfile args) (ns_verbose args);
              MainLog DEBUG (MVersion version_string)] in
  match validate_args fs args with
  | ParserError e => mkMainRun (SystemExit 2) (evs ++ [Usage e])
  | Propagates what => mkMainRun (Uncaught what) evs
  | Passes =>
  if ns_check args then mkMainRun (Return 0) (evs ++ check_tools.2)
  else if negb (truthy_str (which "7z"))
  then mkMainRun (Return 1)
         (evs ++ [MainLog ERROR MNo7z; MainLog ERROR MDownloadFrom])
  else
  let evs := if TQDM_AVAILABLE then evs else evs ++ [MainLog DEBUG MNoTqdm] in
  let r := compress_in_batches fnmatch env fs (args_of args) in
  let evs := evs ++ (OfRun <$> trace r) in
  match result r with
  | ZeroDivisionError => mkMainRun (Uncaught "ZeroDivisionError") evs
  | Returns success failed input_size output_size =>
      let s := summary success failed input_size output_size in
      mkMainRun (exit_status s) (evs ++ main_trace s)
  end
  end.

End Main.

(** A command line for the sample tree: paths of one component, and a
    [parse_size] that knows "100M". *)
Definition path_of_demo (s : string) : Path := [s].

Definition parse_size_demo (s : string) : size_outcome :=
  if String.eqb s "100M" then Size 104857600
  else ValueError ("Invalid size format: " +:+ s).

Definition which_demo (tool : string) : option string :=
  if String.eqb tool "7z" then Some "/usr/bin/7z" else None.

Definition ns_demo : Namespace :=
  {| ns_input := Some "in"; ns_output := Some "out"; ns_batch := 3;
     ns_prefix := "archive"; ns_ext := "7z"; ns_auto := true; ns_threads := 2;
     ns_dry_run := false; ns_compression_level := 5; ns_password := Some "secret";
     ns_split_size := Some "100M"; ns_exclude := []; ns_recursive := true;
     ns_overwrite := false; ns_verify := true; ns_metadata := Some "report.json";
     ns_check := false; ns_logfile := "compress_batches.log"; ns_verbose := false;
     ns_version := false |}.

(** Decides whether a line is among those of the summary. *)
Ltac summary_line :=
  rewrite ?elem_of_app, ?elem_of_cons, ?elem_of_nil;
  split;
  [ let H := fresh in
    intros H; repeat (destruct H as [H|H]); try done;
    try (injection H as ?; subst); repeat split; first [lia | done]
  | let H := fresh in
    intros H; first [lia | destruct H as (? & ? & ->); first [lia | auto 20]
                    | destruct H as (? & ->); first [lia | auto 20]
                    | auto 20] ].

(** The command line [--check] alone. *)
Definition ns_check_demo : Namespace :=
  {| ns_input := None; ns_output := None; ns_batch := 80;
     ns_prefix := "archive"; ns_ext := "7z"; ns_auto := false; ns_threads := 1;
     ns_dry_run := false; ns_compression_level := 5; ns_password := None;
     ns_split_size := None; ns_exclude := []; ns_recursive := false;
     ns_overwrite := false; ns_verify := false; ns_metadata := None;
     ns_check := true; ns_logfile := "compress_batches.log"; ns_verbose := false;
     ns_version := false |}.

(** An environment in which every 7z run succeeds and the futures come
    back in reverse order of submission. *)
Definition env_all_fine : Env :=
  {| subprocess_run := λ _, CompletedProcess 0 "";
     archive_stat := λ _, Some 100;
     confirm := "y";
     as_completed := reverse;
     worker_fault := λ _, None;
     now := "2024-01-01T00:00:00" |}.

(** * Properties *)

(** ** FileCatalog *)

Example ex_flat :
  get_files_flat fnmatch_posix fs_demo ["in"] ["*.log"; "*.tmp"] = [["in"; "c.txt"]].
Proof. vm_compute. reflexivity. Qed.

Example ex_recursive :
  get_files_recursive fnmatch_posix fs_demo ["in"] ["in/sub/*.txt"]
  = [["in"; "a.log"]; ["in"; "b.tmp"]; ["in"; "c.txt"]; ["in"; "sub"; "e.log"]].
Proof. vm_compute. reflexivity. Qed.

Lemma relative_to_Some folder p rel :
  relative_to folder p = Some rel ↔ p = folder ++ rel.
Proof.
  revert p. induction folder as [|c folder IH]; intros p; simpl.
  - split; congruence.
  - destruct p as [|d p]; [split; congruence|].
    case_decide; subst.
    + rewrite IH. split; congruence.
    + split; congruence.
Qed.

Lemma elem_of_rglob (fs : FS) folder p :
  p ∈ rglob fs folder ↔
  is_Some (fs !! p) ∧ ∃ c rel, p = folder ++ c :: rel.
Proof.
  unfold rglob. rewrite list_elem_of_In, List.filter_In, <- list_elem_of_In.
  rewrite list_elem_of_fmap. split.
  - intros [([q x] & -> & Hin) Hrel]. simpl in *.
    apply elem_of_map_to_list in Hin. split; [by eexists|].
    destruct (relative_to folder q) as [[|c rel]|] eqn:E; try done.
    apply relative_to_Some in E. eauto.
  - intros [[x Hx] (c & rel & ->)]. split.
    + exists (folder ++ c :: rel, x). split; [done|]. by apply elem_of_map_to_list.
    + by rewrite (proj2 (relative_to_Some folder _ (c :: rel)) eq_refl).
Qed.

Lemma elem_of_iterdir (fs : FS) folder p :
  p ∈ iterdir fs folder ↔ is_Some (fs !! p) ∧ ∃ c, p = folder ++ [c].
Proof.
  unfold iterdir. rewrite list_elem_of_In, List.filter_In, <- list_elem_of_In.
  rewrite list_elem_of_fmap. split.
  - intros [([q x] & -> & Hin) Hrel]. simpl in *.
    apply elem_of_map_to_list in Hin. split; [by eexists|].
    destruct (relative_to folder q) as [[|c [|??]]|] eqn:E; try done.
    apply relative_to_Some in E. eauto.
  - intros [[x Hx] (c & ->)]. split.
    + exists (folder ++ [c], x). split; [done|]. by apply elem_of_map_to_list.
    + by rewrite (proj2 (relative_to_Some folder _ [c]) eq_refl).
Qed.

Lemma NoDup_rglob (fs : FS) folder : NoDup (rglob fs folder).
Proof.
  unfold rglob. apply NoDup_ListNoDup, List.NoDup_filter, NoDup_ListNoDup.
  apply NoDup_fst_map_to_list.
Qed.

Lemma NoDup_iterdir (fs : FS) folder : NoDup (iterdir fs folder).
Proof.
  unfold iterdir. apply NoDup_ListNoDup, List.NoDup_filter, NoDup_ListNoDup.
  apply NoDup_fst_map_to_list.
Qed.

Lemma elem_of_scan is_f excluded entries (f : Path) :
  f ∈ scan is_f excluded entries ↔
  f ∈ entries ∧ is_f f = true ∧ excluded f = false.
Proof.
  induction entries as [|g rest IH]; simpl.
  - rewrite elem_of_nil. tauto.
  - destruct (is_f g) eqn:Hf; [destruct (excluded g) eqn:He|];
      rewrite ?elem_of_cons, IH; intuition congruence.
Qed.

Lemma NoDup_scan is_f excluded (entries : list Path) :
  NoDup entries → NoDup (scan is_f excluded entries).
Proof.
  induction 1 as [|g rest Hg _ IH]; simpl; [constructor|].
  destruct (is_f g); [destruct (excluded g)|]; try done.
  constructor; [|done]. rewrite elem_of_scan. tauto.
Qed.

Lemma sorted_Permutation files : sorted files ≡ₚ files.
Proof. apply merge_sort_Permutation. Qed.

Lemma path_le_total : Total path_le.
Proof.
  intros p. unfold path_le. induction p as [|c p IH]; intros q; simpl; [by left|].
  destruct q as [|d q]; simpl; [by right|].
  rewrite (String.compare_antisym d c).
  destruct (String.compare c d); simpl; auto.
Qed.

(** The catalog is in the order of [Path] objects. *)
Lemma sorted_Sorted files : Sorted path_le (sorted files).
Proof. apply (Sorted_merge_sort path_le (Total0:=path_le_total)). Qed.

Lemma excluded_recursive_true fnmatch f pats :
  excluded_recursive fnmatch f pats = true ↔
  ∃ pattern, pattern ∈ pats ∧
    (fnmatch (name f) pattern = true ∨ fnmatch (str f) pattern = true).
Proof.
  induction pats as [|p pats IH]; simpl.
  - split; [done|]. intros (? & []%elem_of_nil & _).
  - destruct (fnmatch (name f) p) eqn:E1; simpl.
    { split; [|done]. intros _. exists p. rewrite elem_of_cons. auto. }
    destruct (fnmatch (str f) p) eqn:E2; simpl.
    { split; [|done]. intros _. exists p. rewrite elem_of_cons. auto. }
    rewrite IH. split.
    + intros (q & ? & ?). exists q. rewrite elem_of_cons. auto.
    + intros (q & [->|?]%elem_of_cons & Hq); [|by eauto].
      destruct Hq; congruence.
Qed.

Lemma excluded_flat_true fnmatch f pats :
  excluded_flat fnmatch f pats = true ↔
  ∃ pattern, pattern ∈ pats ∧ fnmatch (name f) pattern = true.
Proof.
  induction pats as [|p pats IH]; simpl.
  - split; [done|]. intros (? & []%elem_of_nil & _).
  - destruct (fnmatch (name f) p) eqn:E1.
    { split; [|done]. intros _. exists p. rewrite elem_of_cons. auto. }
    rewrite IH. split.
    + intros (q & ? & ?). exists q. rewrite elem_of_cons. auto.
    + intros (q & [->|?]%elem_of_cons & Hq); [congruence|by eauto].
Qed.

Lemma NoDup_catalog fnmatch fs a : NoDup (catalog fnmatch fs a).
Proof.
  unfold catalog, get_files_recursive, get_files_flat.
  destruct (recursive a); rewrite sorted_Permutation; apply NoDup_scan.
  - apply NoDup_rglob.
  - apply NoDup_iterdir.
Qed.

(** Exclusion by the path relative to the scanned folder is not what
    the catalog does.  With the folder in/ scanned and the one pattern sub/*.txt, the file in/sub/d.txt has
    the relative path sub/d.txt, which the pattern matches; yet the file
    is in the catalog, because the pattern matches neither d.txt nor
    in/sub/d.txt. *)
Lemma relative_path_match_does_not_exclude :
  ["in"; "sub"; "d.txt"] ∈ rglob fs_demo ["in"]
  ∧ is_file fs_demo ["in"; "sub"; "d.txt"] = true
  ∧ relative_to ["in"] ["in"; "sub"; "d.txt"] = Some ["sub"; "d.txt"]
  ∧ fnmatch_posix "sub/d.txt" "sub/*.txt" = true
  ∧ fnmatch_posix "d.txt" "sub/*.txt" = false
  ∧ fnmatch_posix "in/sub/d.txt" "sub/*.txt" = false
  ∧ ["in"; "sub"; "d.txt"]
    ∈ get_files_recursive fnmatch_posix fs_demo ["in"] ["sub/*.txt"]
  ∧ ¬ (¬ ["in"; "sub"; "d.txt"]
         ∈ get_files_recursive fnmatch_posix fs_demo ["in"] ["sub/*.txt"]
       ↔ excluded_by_relative_path fnmatch_posix ["in"] ["in"; "sub"; "d.txt"]
           ["sub/*.txt"] = true).
Proof.
  assert (Hin : ["in"; "sub"; "d.txt"]
                ∈ get_files_recursive fnmatch_posix fs_demo ["in"] ["sub/*.txt"])
    by find_event.
  split; [find_event|]. do 5 (split; [vm_compute; reflexivity|]).
  split; [exact Hin|]. intros [_ Hex]. apply Hex; [|exact Hin].
  vm_compute. reflexivity.
Qed.

(** C5, amended.  Which files the catalog leaves out.  In recursive
    mode an entry of the scanned tree that is a regular file is left
    out exactly when some pattern matches its base name or its full
    path string (the path under which the scan yields it: the scanned
    folder as it was given, followed by the components below it; not
    the path relative to the scanned folder); in flat mode exactly when
    some pattern matches its base name. *)
Theorem exclusion_by_pattern (fnmatch : string → string → bool)
    (fs : FS) (folder : Path) (exclude_patterns : list string) (f : Path) :
  (f ∈ get_files_recursive fnmatch fs folder exclude_patterns ↔
     f ∈ rglob fs folder ∧ is_file fs f = true ∧
     ¬ ∃ pattern, pattern ∈ exclude_patterns ∧
         (fnmatch (name f) pattern = true ∨ fnmatch (str f) pattern = true))
  ∧
  (f ∈ get_files_flat fnmatch fs folder exclude_patterns ↔
     f ∈ iterdir fs folder ∧ is_file fs f = true ∧
     ¬ ∃ pattern, pattern ∈ exclude_patterns ∧ fnmatch (name f) pattern = true).
Proof.
  unfold get_files_recursive, get_files_flat.
  rewrite !sorted_Permutation, !elem_of_scan.
  rewrite <- excluded_recursive_true, <- excluded_flat_true.
  split; (split; intros (? & ? & H); (split; [done|split; [done|]])).
  - by rewrite H.
  - by destruct (excluded_recursive _ _ _).
  - by rewrite H.
  - by destruct (excluded_flat _ _ _).
Qed.

(** ** BatchPlanner *)

Lemma total_batches_of_step (m B : nat) :
  (1 ≤ m → 1 ≤ B →
   total_batches_of m B = S (total_batches_of (m - B) B))%nat.
Proof.
  intros Hm HB. unfold total_batches_of.
  destruct (decide (B ≤ m)%nat) as [Hle|Hlt].
  - replace (m + B - 1)%nat with ((m - B + B - 1) + 1 * B)%nat by lia.
    rewrite Nat.div_add by lia. lia.
  - replace (m - B)%nat with 0%nat by lia. simpl.
    rewrite (Nat.div_small (B - 1)%nat B) by lia.
    symmetry. apply (Nat.div_unique _ _ 1%nat (m - 1)%nat); lia.
Qed.

Lemma total_batches_of_0 (B : nat) : (1 ≤ B)%nat → total_batches_of 0 B = 0%nat.
Proof. intros. unfold total_batches_of. apply Nat.div_small. lia. Qed.

(** The quotient of line 387 is the ceiling of [nfiles / batch_size]. *)
Lemma total_batches_of_ceil (n B : nat) :
  (1 ≤ B)%nat →
  (n ≤ total_batches_of n B * B)%nat ∧
  ∀ c : nat, (n ≤ c * B)%nat → (total_batches_of n B ≤ c)%nat.
Proof.
  intros HB. unfold total_batches_of.
  pose proof (Nat.div_mod (n + B - 1) B ltac:(lia)) as Hdm.
  pose proof (Nat.mod_upper_bound (n + B - 1) B ltac:(lia)) as Hmod.
  set (q := ((n + B - 1) / B)%nat) in *.
  set (r := ((n + B - 1) mod B)%nat) in *.
  split; [nia|]. intros c Hc.
  destruct (decide (q ≤ c)%nat); [done|]. exfalso.
  assert (S c ≤ q)%nat as Hq by lia.
  assert (S c * B ≤ q * B)%nat by (apply Nat.mul_le_mono_r; done).
  nia.
Qed.

(** The loop of [range] ends because its counter passes [stop], and
    yields the multiples of the step below [stop]. *)
Lemma range_multiples (start stop step : nat) :
  (1 ≤ step)%nat →
  range start stop step
  = (λ k, start + k * step)%nat <$> seq 0 (total_batches_of (stop - start) step).
Proof.
  intros Hstep. funelim (range start stop step); [lia|..].
  - rewrite (total_batches_of_step (stop - start) (S s)) by lia.
    rewrite <- cons_seq, fmap_cons, <- fmap_S_seq, <- list_fmap_compose.
    f_equal; [lia|].
    rewrite H by lia. replace (stop - (start + S s))%nat with (stop - start - S s)%nat by lia.
    apply list_fmap_ext. intros _ k _. simpl. lia.
  - replace (stop - start)%nat with 0%nat by lia.
    by rewrite total_batches_of_0 by lia.
Qed.

Lemma plan_filter fs a files indices :
  (plan fs a files indices).1
  = List.filter (λ b, negb (skipped fs a b)) (batch_at fs a files <$> indices).
Proof.
  induction indices as [|i rest IH]; [done|]. simpl.
  destruct (plan fs a files rest) as [batches evs]. simpl in *.
  unfold skipped at 1. simpl.
  destruct (path_exists fs (archive_path a _) && negb (overwrite a)); simpl;
    by rewrite IH.
Qed.

Lemma plan_overwrite fs a files indices :
  overwrite a = true →
  plan fs a files indices = (batch_at fs a files <$> indices, []).
Proof.
  intros Ho. induction indices as [|i rest IH]; [done|]. simpl.
  rewrite IH, Ho, andb_false_r. done.
Qed.

Lemma concat_chunks {A} (l : list A) (B c : nat) :
  concat ((λ k, take B (drop (k * B) l)) <$> seq 0 c) = take (c * B) l.
Proof.
  induction c as [|c IH]; [done|].
  rewrite seq_S, fmap_app, concat_app, IH. simpl.
  rewrite app_nil_r, take_take_drop. f_equal. lia.
Qed.

Lemma chunks_disjoint {A} (l : list A) (B i j : nat) (x : A) :
  NoDup l →
  x ∈ take B (drop (i * B) l) → x ∈ take B (drop (j * B) l) → i = j.
Proof.
  intros Hnd (p & Hp)%list_elem_of_lookup (q & Hq)%list_elem_of_lookup.
  apply lookup_take_Some in Hp as [Hp Hpb].
  apply lookup_take_Some in Hq as [Hq Hqb].
  rewrite lookup_drop in Hp, Hq.
  pose proof (NoDup_lookup _ _ _ _ Hnd Hp Hq). nia.
Qed.

(** C1. Planning cuts the sorted catalog into consecutive batches.  For
    a batch size of at least one, the loop of lines 411-422 makes, before
    it leaves out the batches whose archive exists, one candidate per
    offset [0, B, 2B, ...]: their number is the quotient of line 387,
    which is the ceiling of N/B; the candidate in position k (counted
    from zero) has number k+1 and holds the entries of the catalog at
    offsets [k*B, (k+1)*B); the candidates in order make up the catalog
    again, and no file is in two of them.  The execution plan is the
    list of candidates without the skipped ones, and all of them when
    overwrite is set. *)
Theorem planning_partitions_catalog (fnmatch : string → string → bool)
    (fs : FS) (a : Args) :
  (1 ≤ batch_size a)%nat →
  let files := catalog fnmatch fs a in
  let B := batch_size a in
  let fs' := mkdir_parents fs (output_folder a) in
  ∃ candidates : list Batch,
    (planned fnmatch fs a).1 = List.filter (λ b, negb (skipped fs' a b)) candidates
    ∧ (overwrite a = true → (planned fnmatch fs a).1 = candidates)
    ∧ length candidates = total_batches_of (length files) B
    ∧ (length files ≤ length candidates * B)%nat
    ∧ (∀ c : nat, (length files ≤ c * B)%nat → (length candidates ≤ c)%nat)
    ∧ (∀ k b, candidates !! k = Some b →
         batch_num b = S k
         ∧ batch_files b = take B (drop (k * B) files)
         ∧ archive_name b = archive_path a (S k)
         ∧ ∀ j, batch_files b !! j
                = if decide (j < B)%nat then files !! (k * B + j)%nat else None)
    ∧ concat (batch_files <$> candidates) = files
    ∧ (∀ i j bi bj f, candidates !! i = Some bi → candidates !! j = Some bj →
         f ∈ batch_files bi → f ∈ batch_files bj → i = j).
Proof.
  intros HB files B fs'.
  exists (batch_at fs' a files <$> range 0 (length files) B).
  assert (Hlen : length (batch_at fs' a files <$> range 0 (length files) B)
                 = total_batches_of (length files) B).
  { rewrite length_fmap, range_multiples, length_fmap, length_seq by done.
    by rewrite Nat.sub_0_r. }
  assert (Hat : ∀ k b,
    (batch_at fs' a files <$> range 0 (length files) B) !! k = Some b →
    b = batch_at fs' a files (k * B)).
  { intros k b. rewrite range_multiples by done.
    rewrite <- list_fmap_compose, list_lookup_fmap_Some.
    intros (k' & -> & [-> _]%lookup_seq). done. }
  destruct (total_batches_of_ceil (length files) B HB) as [Hceil1 Hceil2].
  split; [apply plan_filter|].
  split; [intros Ho; unfold planned; by rewrite plan_overwrite|].
  split; [done|]. rewrite Hlen.
  split; [done|]. split; [done|]. split; [|split].
  - intros k b ->%Hat. unfold batch_at; simpl. fold B.
    rewrite Nat.div_mul by lia.
    split; [lia|]. split; [done|]. split; [f_equal; lia|].
    intros j. case_decide.
    + by rewrite lookup_take_lt, lookup_drop.
    + rewrite lookup_take_ge; [done|lia].
  - rewrite range_multiples, Nat.sub_0_r, <- !list_fmap_compose by done.
    etrans; [|apply (take_ge files (total_batches_of (length files) B * B)); done].
    rewrite <- concat_chunks. reflexivity.
  - intros i j bi bj f ->%Hat ->%Hat. simpl. fold B.
    apply chunks_disjoint, NoDup_catalog.
Qed.

(** ** BatchOrchestrator and RunReport *)

Lemma sumZ_Permutation {A} (f : A → Z) (l1 l2 : list A) :
  l1 ≡ₚ l2 → sumZ f l1 = sumZ f l2.
Proof. induction 1; simpl; lia. Qed.

Lemma sumZ_indicator_split {A} (c : A → bool) (l : list A) :
  sumZ (λ x, indicator (c x)) l + sumZ (λ x, indicator (negb (c x))) l
  = Z.of_nat (length l).
Proof. induction l as [|x l IH]; simpl; [done|]. destruct (c x); simpl; lia. Qed.

Lemma collect_totals env a t tr b :
  let t' := (collect env a (t, tr) b).1 in
  success_count t' = success_count t + indicator (succeeded env a b)
  ∧ fail_count t' = fail_count t + indicator (negb (succeeded env a b))
  ∧ total_output_size t' = total_output_size t + archive_size_of env a b
  ∧ appended t' = appended t ++ record_if_succeeded env a b.
Proof.
  unfold collect, succeeded, archive_size_of, record_if_succeeded,
    verification_failed, compressed.
  destruct (worker env a b).1 as [[[] sz]|e]; simpl.
  - destruct (verify a); simpl.
    + destruct (verify_archive env (archive_name b)) as [[] evs];
        destruct sz as [z|]; simpl; try destruct (Z.eqb_spec z 0); simpl;
        rewrite ?app_nil_r; repeat split; lia.
    + destruct sz as [z|]; simpl; try destruct (Z.eqb_spec z 0); simpl;
        repeat split; lia.
  - rewrite app_nil_r. repeat split; lia.
  - rewrite app_nil_r. repeat split; lia.
Qed.

Lemma foldl_collect_totals env a st bs :
  let t' := (foldl (collect env a) st bs).1 in
  success_count t' = success_count st.1 + sumZ (λ b, indicator (succeeded env a b)) bs
  ∧ fail_count t'
    = fail_count st.1 + sumZ (λ b, indicator (negb (succeeded env a b))) bs
  ∧ total_output_size t' = total_output_size st.1 + sumZ (archive_size_of env a) bs
  ∧ appended t' = appended st.1 ++ flat_map (record_if_succeeded env a) bs.
Proof.
  revert st. induction bs as [|b bs IH]; intros [t tr]; simpl.
  - rewrite app_nil_r. repeat split; lia.
  - destruct (IH (collect env a (t, tr) b)) as (H1 & H2 & H3 & H4).
    destruct (collect_totals env a t tr b) as (C1 & C2 & C3 & C4).
    simpl in *. rewrite H1, H2, H3, H4, C1, C2, C3, C4, <- app_assoc.
    repeat split; lia.
Qed.

Lemma execute_totals env a tr batches :
  completes_each_once env →
  let t := (execute env a tr batches).1 in
  success_count t = sumZ (λ b, indicator (succeeded env a b)) batches
  ∧ fail_count t = sumZ (λ b, indicator (negb (succeeded env a b))) batches
  ∧ total_output_size t = sumZ (archive_size_of env a) batches
  ∧ appended t = flat_map (record_if_succeeded env a) (as_completed env batches).
Proof.
  intros Hperm. unfold execute.
  destruct (foldl_collect_totals env a
              (mkTotals 0 0 0 [], tr ++ flat_map (λ b, (worker env a b).2) batches)
              (as_completed env batches)) as (H1 & H2 & H3 & H4).
  simpl in *. rewrite H1, H2, H3, H4.
  rewrite !(sumZ_Permutation _ _ _ (Hperm batches)). done.
Qed.

Lemma planned_empty_catalog fnmatch fs a :
  catalog fnmatch fs a = [] → (1 ≤ batch_size a)%nat →
  planned fnmatch fs a = ([], []).
Proof.
  intros Hc HB. unfold planned. rewrite Hc. simpl.
  rewrite range_multiples by done. simpl.
  rewrite total_batches_of_0 by done. done.
Qed.

(** A run that is not a dry run and is confirmed returns the totals of
    its execution plan. *)
Lemma run_totals fnmatch env fs a :
  completes_each_once env →
  (1 ≤ batch_size a)%nat →
  dry_run a = false →
  auto a = true ∨ confirm env = "y" →
  let batches := (planned fnmatch fs a).1 in
  result (compress_in_batches fnmatch env fs a)
  = Returns (sumZ (λ b, indicator (succeeded env a b)) batches)
            (sumZ (λ b, indicator (negb (succeeded env a b))) batches)
            (sum_sizes fs (catalog fnmatch fs a))
            (sumZ (archive_size_of env a) batches).
Proof.
  intros Hperm HB Hdry Hgo. unfold compress_in_batches.
  destruct (catalog fnmatch fs a) as [|f files] eqn:Hcat.
  { simpl. by rewrite planned_empty_catalog. }
  destruct (batch_size a) as [|n] eqn:HBa; [lia|].
  destruct (planned fnmatch fs a) as [[|b batches] evs] eqn:Hplan; [done|].
  rewrite Hdry.
  assert (negb (auto a) && negb (String.eqb (confirm env) "y") = false) as ->.
  { destruct Hgo as [->| ->]; [done|]. by rewrite andb_false_r. }
  match goal with
  | |- context [execute env a ?tr ?bs] =>
      pose proof (execute_totals env a tr bs Hperm) as (H1 & H2 & H3 & _);
      destruct (execute env a tr bs) as [t tr']
  end.
  simpl in *. by rewrite H1, H2, H3.
Qed.

Lemma plan_events_log fs a files indices out :
  Forall (is_log_or_mkdir out) (plan fs a files indices).2.
Proof.
  induction indices as [|i rest IH]; simpl; [constructor|].
  destruct (plan fs a files rest) as [batches evs]. simpl in *.
  destruct (path_exists fs _ && negb (overwrite a)); simpl; [|done].
  by constructor.
Qed.

Lemma preview_events_log total batches out :
  Forall (is_log_or_mkdir out) (preview total batches).
Proof.
  unfold preview. induction batches as [|b bs IH]; simpl; [constructor|].
  constructor; [done|]. apply Forall_app. split; [|done].
  by apply Forall_fmap, Forall_true.
Qed.

(** What a dry run does and returns. *)
Lemma dry_run_outcome fnmatch env fs a :
  (1 ≤ batch_size a)%nat →
  dry_run a = true →
  let r := compress_in_batches fnmatch env fs a in
  result r = Returns (Z.of_nat (length (planned fnmatch fs a).1)) 0
               (sum_sizes fs (catalog fnmatch fs a)) 0
  ∧ Forall (is_log_or_mkdir (output_folder a)) (trace r).
Proof.
  intros HB Hdry. unfold compress_in_batches.
  destruct (catalog fnmatch fs a) as [|f files] eqn:Hcat.
  { simpl. rewrite planned_empty_catalog by done. split; [done|]. by repeat constructor. }
  destruct (batch_size a) as [|n] eqn:HBa; [lia|].
  pose proof (plan_events_log (mkdir_parents fs (output_folder a)) a
                (catalog fnmatch fs a)
                (range 0 (length (catalog fnmatch fs a)) (batch_size a))
                (output_folder a)) as Hevs.
  fold (planned fnmatch fs a) in Hevs.
  destruct (planned fnmatch fs a) as [[|b batches] evs] eqn:Hplan; rewrite Hdry;
    cbn [result trace fst snd] in *; (split; [done|]);
    destruct (exclude_patterns a);
    rewrite ?Forall_app; repeat split;
    first [done | apply preview_events_log | by repeat constructor].
Qed.

Lemma collect_trace env a t tr b :
  (collect env a (t, tr) b).2 = tr ++ collect_events env a b.
Proof.
  unfold collect, collect_events.
  destruct (worker env a b).1 as [[[] sz]|e]; simpl; rewrite ?app_nil_r; try done.
  destruct (verify a); simpl; rewrite ?app_nil_r; try done.
  destruct (verify_archive env (archive_name b)) as [[] evs]; simpl;
    by rewrite ?app_nil_r.
Qed.

Lemma foldl_collect_trace env a st bs :
  (foldl (collect env a) st bs).2 = st.2 ++ flat_map (collect_events env a) bs.
Proof.
  revert st. induction bs as [|b bs IH]; intros [t tr]; cbn [foldl flat_map].
  - by rewrite app_nil_r.
  - rewrite IH, collect_trace, <- app_assoc. done.
Qed.

Lemma execute_trace env a tr batches :
  (execute env a tr batches).2
  = tr ++ flat_map (λ b, (worker env a b).2) batches
       ++ flat_map (collect_events env a) (as_completed env batches).
Proof. unfold execute. rewrite foldl_collect_trace. simpl. by rewrite <- app_assoc. Qed.

Lemma is_log_or_spawn_for_mono a bs1 bs2 ev :
  bs1 ⊆ bs2 → is_log_or_spawn_for a bs1 ev → is_log_or_spawn_for a bs2 ev.
Proof.
  intros Hsub. destruct ev; simpl; try done.
  intros (b & Hb & Hc). exists b. split; [by apply Hsub|done].
Qed.

Lemma compress_batch_events env a b :
  Forall (is_log_or_spawn_for a [b])
    (compress_batch env (batch_files b) (archive_name b) (compression_level a)
       (password a) (split_size a)).2.
Proof.
  assert (Hs : is_log_or_spawn_for a [b] (Spawn (batch_cmd a b))).
  { exists b. split; [apply list_elem_of_here|by left]. }
  unfold compress_batch. fold (batch_cmd a b).
  destruct (subprocess_run env (batch_cmd a b)) as [rc stderr|[|e]]; simpl.
  - destruct (rc =? 0).
    + destruct (archive_stat env (archive_name b)); simpl; by repeat constructor.
    + simpl. destruct (String.eqb stderr ""); by repeat constructor.
  - by repeat constructor.
  - by repeat constructor.
Qed.

Lemma worker_events env a b :
  Forall (is_log_or_spawn_for a [b]) (worker env a b).2.
Proof.
  unfold worker. destruct (worker_fault env (batch_num b)); [constructor|].
  pose proof (compress_batch_events env a b) as H.
  by destruct (compress_batch env _ _ _ _ _).
Qed.

Lemma verify_archive_events env a b :
  Forall (is_log_or_spawn_for a [b]) (verify_archive env (archive_name b)).2.
Proof.
  assert (Hs : is_log_or_spawn_for a [b] (Spawn (verify_cmd b))).
  { exists b. split; [apply list_elem_of_here|by right]. }
  unfold verify_archive. fold (verify_cmd b).
  destruct (subprocess_run env (verify_cmd b)) as [rc stderr|[|e]]; simpl.
  - destruct (rc =? 0); simpl; [by repeat constructor|].
    destruct (String.eqb stderr ""); by repeat constructor.
  - by repeat constructor.
  - by repeat constructor.
Qed.

Lemma collect_events_kind env a b :
  Forall (is_log_or_spawn_for a [b]) (collect_events env a b).
Proof.
  unfold collect_events.
  destruct (worker env a b).1 as [[[] sz]|e]; try by repeat constructor.
  destruct (verify a); [|constructor].
  apply Forall_app. split; [apply verify_archive_events|].
  destruct (verify_archive env (archive_name b)).1; by repeat constructor.
Qed.

Lemma Forall_flat_map_batches a (f : Batch → list event) (bs all : list Batch) :
  bs ⊆ all →
  (∀ b, Forall (is_log_or_spawn_for a [b]) (f b)) →
  Forall (is_log_or_spawn_for a all) (flat_map f bs).
Proof.
  intros Hsub Hf. induction bs as [|b bs IH]; simpl; [constructor|].
  apply Forall_app. split.
  - eapply Forall_impl; [apply Hf|]. intros ev. apply is_log_or_spawn_for_mono.
    intros x ->%list_elem_of_singleton. apply Hsub, list_elem_of_here.
  - apply IH. intros x Hx. apply Hsub. by apply list_elem_of_further.
Qed.

Lemma execute_events env a batches :
  Forall (is_log_or_spawn_for a (batches ++ as_completed env batches))
    (flat_map (λ b, (worker env a b).2) batches
     ++ flat_map (collect_events env a) (as_completed env batches)).
Proof.
  apply Forall_app. split.
  - apply Forall_flat_map_batches; [|intros b; apply worker_events].
    intros x Hx. apply elem_of_app. by left.
  - apply Forall_flat_map_batches; [|intros b; apply collect_events_kind].
    intros x Hx. apply elem_of_app. by right.
Qed.

Lemma collect_fst_indep env a t tr tr' b :
  (collect env a (t, tr) b).1 = (collect env a (t, tr') b).1.
Proof.
  unfold collect. destruct (worker env a b).1 as [[[] sz]|e]; try done.
  destruct (verify a); [|done].
  by destruct (verify_archive env (archive_name b)) as [[] evs].
Qed.

Lemma foldl_collect_fst_indep env a st st' bs :
  st.1 = st'.1 → (foldl (collect env a) st bs).1 = (foldl (collect env a) st' bs).1.
Proof.
  revert st st'. induction bs as [|b bs IH]; intros [t tr] [t' tr'] Heq;
    cbn [foldl]; [done|].
  simpl in Heq. subst t'. apply IH, collect_fst_indep.
Qed.

Lemma execute_final_totals env a tr batches :
  (execute env a tr batches).1 = final_totals env a batches.
Proof. unfold final_totals, execute. by apply foldl_collect_fst_indep. Qed.

Lemma is_log_or_mkdir_planning out ev :
  is_log_or_mkdir out ev → is_planning_event out ev.
Proof. by destruct ev. Qed.

(** The trace of a run: planning events, then, if the run gets that
    far, the events of the workers, of the collecting loop and of the
    export. *)
Lemma run_shape fnmatch env fs a :
  let r := compress_in_batches fnmatch env fs a in
  let files := catalog fnmatch fs a in
  let batches := (planned fnmatch fs a).1 in
  let tin := sum_sizes fs files in
  ∃ pre,
    Forall (is_planning_event (output_folder a)) pre ∧
    ((trace r = pre ∧
      (dry_run a = true ∨ (auto a = false ∧ confirm env ≠ "y")
       ∨ batch_size a = 0%nat ∨ batches = [])) ∨
     (dry_run a = false ∧ (auto a = true ∨ confirm env = "y") ∧
      (1 ≤ batch_size a)%nat ∧
      result r = Returns (success_count (final_totals env a batches))
                   (fail_count (final_totals env a batches)) tin
                   (total_output_size (final_totals env a batches)) ∧
      trace r
      = pre ++ (flat_map (λ b, (worker env a b).2) batches
                ++ flat_map (collect_events env a) (as_completed env batches))
            ++ export a (initial_metadata env a (length files) tin)
                 (final_totals env a batches) tin)).
Proof.
  intros r files batches tin. subst r files batches tin.
  unfold compress_in_batches.
  destruct (catalog fnmatch fs a) as [|f files] eqn:Hcat.
  { exists [Log ERROR (MsgNoFilesFound (str (input_folder a)))].
    split; [by repeat constructor|]. left. split; [done|].
    destruct (batch_size a) as [|n] eqn:HBa; [by auto|].
    do 3 right. rewrite planned_empty_catalog; [done..|lia]. }
  destruct (batch_size a) as [|n] eqn:HBa.
  { exists []. split; [constructor|]. left. by auto. }
  rewrite <- HBa, <- Hcat.
  pose proof (plan_events_log (mkdir_parents fs (output_folder a)) a
                (catalog fnmatch fs a)
                (range 0 (length (catalog fnmatch fs a)) (batch_size a))
                (output_folder a)) as Hevs.
  fold (planned fnmatch fs a) in Hevs.
  apply (λ H, Forall_impl _ _ _ H (is_log_or_mkdir_planning _)) in Hevs.
  destruct (planned fnmatch fs a) as [[|b batches] evs] eqn:Hplan;
    cbn [fst snd] in *.
  { eexists. split; [|left; split; [done|by auto]]. cbn [trace].
    destruct (exclude_patterns a), (dry_run a);
      rewrite ?Forall_app; repeat split; first [done | by repeat constructor]. }
  assert (Hpre : Forall (is_planning_event (output_folder a))
            ((([Log INFO (MsgFound (length (catalog fnmatch fs a))
                 (sum_sizes fs (catalog fnmatch fs a))
                 (total_batches_of (length (catalog fnmatch fs a)) (batch_size a)))]
              ++ match exclude_patterns a with
                 | [] => []
                 | _ :: _ => [Log INFO (MsgExcluding (exclude_patterns a))]
                 end
              ++ (if dry_run a then [Log INFO MsgDryRunMode] else [])
              ++ [Mkdir (output_folder a)]) ++ evs)
            ++ preview (total_batches_of (length (catalog fnmatch fs a)) (batch_size a))
                 (b :: batches))).
  { destruct (exclude_patterns a), (dry_run a);
      rewrite ?Forall_app; repeat split;
      first [done | by repeat constructor
            | exact (Forall_impl _ _ _ (preview_events_log _ _ _)
                       (is_log_or_mkdir_planning _)) ]. }
  destruct (dry_run a) eqn:Hdry.
  { eexists. split; [|left; split; [done|by auto]]. cbn [trace].
    apply Forall_app. split; [exact Hpre|by repeat constructor]. }
  destruct (auto a) eqn:Hauto; cbn [negb andb].
  - match type of Hpre with Forall _ ?l => exists l end.
    split; [exact Hpre|]. right.
    split; [done|]. split; [by left|]. split; [lia|].
    pose proof (execute_trace env a) as Htr.
    pose proof (execute_final_totals env a) as Htot.
    match goal with
    | |- context [execute env a ?tr ?bs] =>
        specialize (Htr tr bs); specialize (Htot tr bs);
        destruct (execute env a tr bs) as [t tr']
    end.
    cbn [fst snd trace result] in Htr, Htot |- *. rewrite Htr, Htot.
    split; [done|]. symmetry. apply app_assoc.
  - destruct (String.eqb_spec (confirm env) "y") as [Hy|Hn]; cbn [negb].
    + match type of Hpre with
      | Forall _ ?l => exists (l ++ [Prompt (length (b :: batches))])
      end.
      split; [apply Forall_app; split; [exact Hpre|by repeat constructor]|].
      right. split; [done|]. split; [by right|]. split; [lia|].
      pose proof (execute_trace env a) as Htr.
      pose proof (execute_final_totals env a) as Htot.
      match goal with
      | |- context [execute env a ?tr ?bs] =>
          specialize (Htr tr bs); specialize (Htot tr bs);
          destruct (execute env a tr bs) as [t tr']
      end.
      cbn [fst snd trace result] in Htr, Htot |- *. rewrite Htr, Htot.
      split; [done|]. symmetry. apply app_assoc.
    + eexists. split; [|left; split; [done|by auto]]. cbn [trace].
      apply Forall_app; split; [apply Forall_app; split; [exact Hpre|]|];
        by repeat constructor.
Qed.

Lemma env_verify_fails_completes : completes_each_once env_verify_fails.
Proof. intros bs. apply reverse_Permutation. Qed.

Lemma env_tool_missing_completes : completes_each_once env_tool_missing.
Proof. intros bs. apply reverse_Permutation. Qed.

Example run_verify_fails :
  result (compress_in_batches fnmatch_posix env_verify_fails fs_demo args_demo)
  = Returns 1 1 28 200.
Proof. vm_compute. reflexivity. Qed.

Lemma demoted_not_succeeded env a b :
  demoted env a b = true → succeeded env a b = false.
Proof.
  unfold demoted, succeeded. intros [_ ->]%andb_true_iff. apply andb_false_r.
Qed.

(** C2. A batch that is compressed but fails verification is first
    counted as a success and then taken back: the turn of the collecting
    loop that handles it leaves the success counter where it was (plus
    one, minus one) and adds one to the failure counter.  In the totals
    that a confirmed run returns, every batch of the plan is counted
    once, as a success when it was compressed and not demoted and as a
    failure otherwise, so such a batch counts as one failure only. *)
Theorem verification_failure_counted_once (fnmatch : string → string → bool)
    (env : Env) (fs : FS) (a : Args) :
  completes_each_once env →
  (1 ≤ batch_size a)%nat →
  dry_run a = false →
  auto a = true ∨ confirm env = "y" →
  let batches := (planned fnmatch fs a).1 in
  (∀ t tr b, demoted env a b = true →
     let t' := (collect env a (t, tr) b).1 in
     success_count t' = success_count t + 1 - 1
     ∧ fail_count t' = fail_count t + 1)
  ∧ (∃ tin tout,
       result (compress_in_batches fnmatch env fs a)
       = Returns (sumZ (λ b, indicator (succeeded env a b)) batches)
                 (sumZ (λ b, indicator (negb (succeeded env a b))) batches)
                 tin tout)
  ∧ (∀ b, demoted env a b = true →
       indicator (succeeded env a b) = 0
       ∧ indicator (negb (succeeded env a b)) = 1)
  ∧ sumZ (λ b, indicator (succeeded env a b)) batches
    + sumZ (λ b, indicator (negb (succeeded env a b))) batches
    = Z.of_nat (length batches).
Proof.
  intros Hperm HB Hdry Hgo batches. split; [|split; [|split]].
  - intros t tr b Hd t'. subst t'.
    destruct (collect_totals env a t tr b) as (H1 & H2 & _).
    rewrite H1, H2, (demoted_not_succeeded _ _ _ Hd). simpl. lia.
  - eexists _, _. by apply run_totals.
  - intros b Hd. by rewrite (demoted_not_succeeded _ _ _ Hd).
  - apply sumZ_indicator_split.
Qed.

Lemma verification_failure_counted_once_witness :
  completes_each_once env_verify_fails
  ∧ (1 ≤ batch_size args_demo)%nat
  ∧ dry_run args_demo = false
  ∧ (auto args_demo = true ∨ confirm env_verify_fails = "y")
  ∧ ∃ tin tout,
      result (compress_in_batches fnmatch_posix env_verify_fails fs_demo args_demo)
      = Returns 1 1 tin tout.
Proof.
  split; [exact env_verify_fails_completes|].
  split; [vm_compute; lia|]. split; [reflexivity|]. split; [by left|].
  destruct (verification_failure_counted_once fnmatch_posix env_verify_fails
              fs_demo args_demo env_verify_fails_completes
              ltac:(vm_compute; lia) eq_refl (or_introl eq_refl))
    as (_ & (tin & tout & Hres) & _).
  exists tin, tout. rewrite Hres. vm_compute. reflexivity.
Defined.

(** C4. A run of two batches in which both are compressed into archives
    of 100 bytes and the test of the first archive fails: the run
    returns one success, one failure and an output size of 200, and the
    report it writes gives a total output size of 200 next to a single
    record, of 100 bytes.  The archive of the demoted batch is part of
    the total. *)
Theorem demoted_archive_in_total_output :
  let r := compress_in_batches fnmatch_posix env_verify_fails fs_demo args_demo in
  let batches := (planned fnmatch_posix fs_demo args_demo).1 in
  result r = Returns 1 1 28 200
  ∧ (demoted env_verify_fails args_demo <$> batches) = [true; false]
  ∧ (archive_size_of env_verify_fails args_demo <$> batches) = [100; 100]
  ∧ ∃ m, WriteJson "report.json" m ∈ trace r
         ∧ md_total_output_size m = Some 200
         ∧ (rec_output_size <$> archives m) = [Some 100].
Proof.
  vm_compute. repeat split.
  eexists. split.
  - repeat first [apply list_elem_of_here | apply list_elem_of_further].
  - split; reflexivity.
Qed.

Lemma not_write_planning out path m pre :
  Forall (is_planning_event out) pre → WriteJson path m ∉ pre.
Proof. rewrite Forall_forall. intros H Hin. apply (H _ Hin). Qed.

Lemma not_write_execute a bs path m evs :
  Forall (is_log_or_spawn_for a bs) evs → WriteJson path m ∉ evs.
Proof. rewrite Forall_forall. intros H Hin. apply (H _ Hin). Qed.

(** The report that a run writes, if it writes one. *)
Lemma written_report fnmatch env fs a path m :
  WriteJson path m ∈ trace (compress_in_batches fnmatch env fs a) →
  let t := final_totals env a (planned fnmatch fs a).1 in
  let tin := sum_sizes fs (catalog fnmatch fs a) in
  result (compress_in_batches fnmatch env fs a)
  = Returns (success_count t) (fail_count t) tin (total_output_size t)
  ∧ archives m = appended t
  ∧ md_total_output_size m = Some (total_output_size t)
  ∧ compression_ratio m = Some (ratio (total_output_size t) tin)
  ∧ md_total_input_size m = tin
  ∧ 0 < success_count t
  ∧ metadata_file a = Some path.
Proof.
  intros Hin t tin.
  destruct (run_shape fnmatch env fs a)
    as (pre & Hpre & [[Htr _]|(_ & _ & _ & Hres & Htr)]); rewrite Htr in Hin.
  { by apply (not_write_planning _ path m) in Hpre. }
  apply elem_of_app in Hin as [Hin|Hin]; [|apply elem_of_app in Hin as [Hin|Hin]].
  { by apply (not_write_planning _ path m) in Hpre. }
  { by apply (not_write_execute _ _ path m _ (execute_events env a _)) in Hin. }
  split; [exact Hres|]. fold t tin in Hin. unfold export in Hin.
  destruct (metadata_file a) as [mf|]; [|by apply elem_of_nil in Hin].
  simpl in Hin. destruct (String.eqb mf ""); simpl in Hin;
    [by apply elem_of_nil in Hin|].
  destruct (Z.ltb_spec 0 (success_count t)); [|by apply elem_of_nil in Hin].
  apply elem_of_cons in Hin as [Hin|Hin].
  - injection Hin as -> ->. simpl. by repeat split.
  - apply list_elem_of_singleton in Hin. discriminate.
Qed.

(** The quotient of two [int]s is rounded once.  For this pair Python
    gives 12011953.766392833; dividing the two operands after making
    each a float gives the float below it. *)
Example truediv_rounds_once :
  truediv 2540045837516736068 211459841331
  = S754_finite false 6448868573465155 (-29)
  ∧ binary64.div (binary64.of_int 2540045837516736068)
      (binary64.of_int 211459841331)
    = S754_finite false 6448868573465154 (-29).
Proof. split; vm_compute; reflexivity. Qed.

(** Seven bytes out of ten: the ratio is the float next above 30, which
    Python prints as 30.000000000000004. *)
Example ratio_7_of_10 :
  ratio 7 10 = PyFloat (S754_finite false 8444249301319681 (-48))
  ∧ binary64.of_int 30 = S754_finite false 8444249301319680 (-48).
Proof. split; vm_compute; reflexivity. Qed.

(** C7. The ratio in the report.  Whenever a run writes its report,
    the [compression_ratio] in it is computed from the two sizes the
    run returns.  When the total input size is positive it is the
    Python value of (1 - total_output_size / total_input_size) * 100:
    the quotient, the difference and the product are floats, each the
    binary64 number nearest to the exact result of its operation.
    When the total input size is zero it is the integer 0. *)
Theorem compression_ratio_formula (fnmatch : string → string → bool)
    (env : Env) (fs : FS) (a : Args) (path : string) (m : Metadata)
    (s f tin tout : Z) :
  WriteJson path m ∈ trace (compress_in_batches fnmatch env fs a) →
  result (compress_in_batches fnmatch env fs a) = Returns s f tin tout →
  md_total_output_size m = Some tout
  ∧ md_total_input_size m = tin
  ∧ (0 < tin → Z.abs tout < 2 ^ 1023 →
     compression_ratio m
     = Some (PyFloat (binary64.mul
                        (binary64.sub (binary64.of_int 1)
                           (binary64.div (int_operand tout) (int_operand tin)))
                        (binary64.of_int 100))))
  ∧ (tin = 0 → compression_ratio m = Some (PyInt 0)).
Proof.
  intros Hin Hres.
  destruct (written_report _ _ _ _ _ _ Hin) as (Hr & _ & Hout & Hratio & Htin & _).
  rewrite Hr in Hres. injection Hres as _ _ <- <-.
  rewrite Hout, Hratio, Htin. unfold ratio, truediv. repeat split.
  - intros Hpos _. by destruct (Z.ltb_spec 0 (sum_sizes fs (catalog fnmatch fs a))); [|lia].
  - intros ->. done.
Qed.

(** The sample run: 28 bytes in, 200 bytes out, and a ratio of
    -5403314285070629 * 2^-43, which Python prints as
    -614.2857142857143. *)
Lemma compression_ratio_formula_witness :
  ∃ m, WriteJson "report.json" m
         ∈ trace (compress_in_batches fnmatch_posix env_verify_fails fs_demo args_demo)
       ∧ result (compress_in_batches fnmatch_posix env_verify_fails fs_demo args_demo)
         = Returns 1 1 28 200
       ∧ 0 < 28
       ∧ Z.abs 200 < 2 ^ 1023
       ∧ compression_ratio m
         = Some (PyFloat (S754_finite true 5403314285070629 (-43))).
Proof.
  eexists. split; [find_event|]. split; [vm_compute; reflexivity|].
  split; [reflexivity|]. split; [reflexivity|].
  etrans.
  - refine (proj1 (proj2 (proj2
      (compression_ratio_formula fnmatch_posix env_verify_fails fs_demo args_demo
         "report.json" _ 1 1 28 200 _ _))) _ _).
    + find_event.
    + vm_compute; reflexivity.
    + reflexivity.
    + reflexivity.
  - vm_compute. reflexivity.
Defined.

Lemma elem_of_record_if_succeeded env a b r :
  r ∈ record_if_succeeded env a b ↔
  ∃ archive_size,
    compressed env a b = Some archive_size
    ∧ (verify a = false ∨ (verify_archive env (archive_name b)).1 = true)
    ∧ r = record_of b archive_size.
Proof.
  unfold record_if_succeeded, verification_failed.
  destruct (compressed env a b) as [sz|].
  - destruct (verify a); simpl.
    + destruct (verify_archive env (archive_name b)).1; simpl.
      * rewrite list_elem_of_singleton. split; [by eauto|].
        by intros (? & [= <-] & _ & ->).
      * rewrite elem_of_nil. split; [done|]. by intros (? & _ & [?|?] & _).
    + rewrite list_elem_of_singleton. split; [by eauto|].
      by intros (? & [= <-] & _ & ->).
  - rewrite elem_of_nil. split; [done|]. by intros (? & ? & _).
Qed.

(** C10. Which batches get a record in the report.  The turn of the
    collecting loop that handles a batch appends its record exactly when
    the batch was compressed and verification passed or was not asked
    for; for a batch that was compressed but failed verification the
    list is left as it was.  So the records appended in an execution
    are those of the batches that were compressed and not demoted, and
    they are the [archives] of the report if the run writes one. *)
Theorem record_appended_iff_verified (fnmatch : string → string → bool)
    (env : Env) (fs : FS) (a : Args) :
  completes_each_once env →
  let batches := (planned fnmatch fs a).1 in
  (∀ t tr b,
     appended (collect env a (t, tr) b).1
     = appended t
       ++ match compressed env a b with
          | Some archive_size =>
              if verify a && negb (verify_archive env (archive_name b)).1
              then [] else [record_of b archive_size]
          | None => []
          end)
  ∧ (∀ t tr b, demoted env a b = true →
       appended (collect env a (t, tr) b).1 = appended t)
  ∧ (∀ r, r ∈ appended (final_totals env a batches) ↔
       ∃ b archive_size,
         b ∈ batches
         ∧ compressed env a b = Some archive_size
         ∧ (verify a = false ∨ (verify_archive env (archive_name b)).1 = true)
         ∧ r = record_of b archive_size)
  ∧ (∀ path m,
       WriteJson path m ∈ trace (compress_in_batches fnmatch env fs a) →
       archives m = appended (final_totals env a batches)).
Proof.
  intros Hperm batches. split; [|split; [|split]].
  - intros t tr b. by destruct (collect_totals env a t tr b) as (_ & _ & _ & ->).
  - intros t tr b Hd. destruct (collect_totals env a t tr b) as (_ & _ & _ & ->).
    unfold record_if_succeeded. unfold demoted in Hd.
    apply andb_true_iff in Hd as [Hc ->].
    destruct (compressed env a b); by rewrite app_nil_r.
  - intros r. unfold final_totals.
    destruct (execute_totals env a [] batches Hperm) as (_ & _ & _ & ->).
    rewrite list_elem_of_In, in_flat_map. split.
    + intros (b & Hb%list_elem_of_In & Hr%list_elem_of_In).
      rewrite (Hperm batches) in Hb.
      apply elem_of_record_if_succeeded in Hr as (sz & ? & ? & ?). by eauto 6.
    + intros (b & sz & Hb & ? & ? & ?). exists b.
      rewrite <- !list_elem_of_In, (Hperm batches). split; [done|].
      apply elem_of_record_if_succeeded. by eauto.
  - intros path m Hin. by destruct (written_report _ _ _ _ _ _ Hin) as (_ & -> & _).
Qed.

Lemma record_appended_iff_verified_witness :
  completes_each_once env_verify_fails
  ∧ ∀ r, r ∈ appended (final_totals env_verify_fails args_demo
                         (planned fnmatch_posix fs_demo args_demo).1) ↔
       ∃ b archive_size,
         b ∈ (planned fnmatch_posix fs_demo args_demo).1
         ∧ compressed env_verify_fails args_demo b = Some archive_size
         ∧ (verify args_demo = false
            ∨ (verify_archive env_verify_fails (archive_name b)).1 = true)
         ∧ r = record_of b archive_size.
Proof.
  split; [exact env_verify_fails_completes|].
  exact (proj1 (proj2 (proj2
    (record_appended_iff_verified fnmatch_posix env_verify_fails fs_demo
       args_demo env_verify_fails_completes)))).
Defined.

(** A run that is not a dry run, is confirmed and has a plan goes
    through the execution phase. *)
Lemma run_executed fnmatch env fs a :
  (1 ≤ batch_size a)%nat →
  dry_run a = false →
  auto a = true ∨ confirm env = "y" →
  (planned fnmatch fs a).1 ≠ [] →
  let r := compress_in_batches fnmatch env fs a in
  let batches := (planned fnmatch fs a).1 in
  ∃ pre post,
    Forall (is_planning_event (output_folder a)) pre
    ∧ trace r
      = pre ++ (flat_map (λ b, (worker env a b).2) batches
                ++ flat_map (collect_events env a) (as_completed env batches))
            ++ post.
Proof.
  intros HB Hdry Hgo Hne r batches.
  destruct (run_shape fnmatch env fs a)
    as (pre & Hpre & [[_ Hwhy]|(_ & _ & _ & _ & Htr)]).
  - exfalso. destruct Hwhy as [?|[[? ?]|[?|?]]]; [congruence| |lia|done].
    destruct Hgo; congruence.
  - by eauto.
Qed.

Lemma spawn_in_compress_batch env batch_files archive_name level password split_size :
  Spawn (compress_cmd batch_files archive_name level password split_size)
  ∈ (compress_batch env batch_files archive_name level password split_size).2.
Proof.
  unfold compress_batch.
  destruct (subprocess_run env _) as [rc stderr|[|e]]; simpl.
  - destruct (rc =? 0); [destruct (archive_stat env archive_name)|]; simpl;
      do 2 apply list_elem_of_further; apply list_elem_of_here.
  - do 2 apply list_elem_of_further; apply list_elem_of_here.
  - do 2 apply list_elem_of_further; apply list_elem_of_here.
Qed.

Lemma compress_batch_raise env batch_files archive_name level password split_size e :
  subprocess_run env (compress_cmd batch_files archive_name level password split_size)
  = Raise e →
  (compress_batch env batch_files archive_name level password split_size).1
  = (false, None).
Proof. unfold compress_batch. intros ->. by destruct e. Qed.

Lemma spawn_in_worker env a b :
  worker_fault env (batch_num b) = None →
  Spawn (batch_cmd a b) ∈ (worker env a b).2.
Proof.
  intros Hw. unfold worker. rewrite Hw.
  pose proof (spawn_in_compress_batch env (batch_files b) (archive_name b)
                (compression_level a) (password a) (split_size a)) as H.
  by destruct (compress_batch env _ _ _ _ _).
Qed.

Lemma elem_of_flat_map_intro {A B} (f : A → list B) (l : list A) x y :
  x ∈ l → y ∈ f x → y ∈ flat_map f l.
Proof.
  intros Hx Hy. apply list_elem_of_In, in_flat_map. exists x.
  by rewrite <- !list_elem_of_In.
Qed.

(** C8. A 7z that cannot be started fails its own batch and nothing
    else.  If [subprocess.run] raises for the command line of a batch
    of the plan (the executable is missing, or any other error), then
    [compress_batch] returns [(False, None)] for it; the batch is
    counted as a failure; the run still returns its totals, in which
    every batch of the plan is counted once, each after its own
    outcome; and a 7z process is spawned for every other batch. *)
Theorem tool_failure_is_contained (fnmatch : string → string → bool)
    (env : Env) (fs : FS) (a : Args) (b : Batch) (e : exn) :
  completes_each_once env →
  (1 ≤ batch_size a)%nat →
  dry_run a = false →
  auto a = true ∨ confirm env = "y" →
  b ∈ (planned fnmatch fs a).1 →
  subprocess_run env (batch_cmd a b) = Raise e →
  let r := compress_in_batches fnmatch env fs a in
  let batches := (planned fnmatch fs a).1 in
  (compress_batch env (batch_files b) (archive_name b) (compression_level a)
     (password a) (split_size a)).1 = (false, None)
  ∧ succeeded env a b = false
  ∧ (∃ tin tout,
       result r = Returns (sumZ (λ b, indicator (succeeded env a b)) batches)
                    (sumZ (λ b, indicator (negb (succeeded env a b))) batches)
                    tin tout)
  ∧ sumZ (λ b, indicator (succeeded env a b)) batches
    + sumZ (λ b, indicator (negb (succeeded env a b))) batches
    = Z.of_nat (length batches)
  ∧ (∀ b', b' ∈ batches → worker_fault env (batch_num b') = None →
       Spawn (batch_cmd a b') ∈ trace r).
Proof.
  intros Hperm HB Hdry Hgo Hb Hraise r batches.
  pose proof (compress_batch_raise env _ _ _ _ _ _ Hraise) as Hcb.
  split; [exact Hcb|]. split; [|split; [|split]].
  - unfold succeeded, compressed, worker.
    destruct (worker_fault env (batch_num b)); [done|].
    destruct (compress_batch env _ _ _ _ _) as [res evs]. simpl in Hcb.
    by subst res.
  - eexists _, _. by apply run_totals.
  - apply sumZ_indicator_split.
  - intros b' Hb' Hw.
    destruct (run_executed fnmatch env fs a HB Hdry Hgo) as (pre & post & _ & Htr).
    { intros Hnil. fold batches in Hnil. rewrite Hnil in Hb'.
      by apply elem_of_nil in Hb'. }
    subst r. rewrite Htr. apply elem_of_app. right.
    apply elem_of_app. left. apply elem_of_app. left.
    eapply elem_of_flat_map_intro; [exact Hb'|]. by apply spawn_in_worker.
Qed.

(** C9. A password brings header encryption with it.  When a password
    (a string that is not empty) is given, the command line that
    [compress_batch] hands to [subprocess.run] carries [-p<password>]
    and, right after it, [-mhe=on].  Whatever the arguments, the part
    of the command line between the archive name and the split and file
    arguments is either empty or exactly that pair: a password argument
    never comes without [-mhe=on]. *)
Theorem password_brings_header_encryption (env : Env) (batch_files : list Path)
    (archive_name : Path) (level : Z) (pw : string) (split_size : option string) :
  pw ≠ "" →
  let cmd := compress_cmd batch_files archive_name level (Some pw) split_size in
  Spawn cmd ∈ (compress_batch env batch_files archive_name level (Some pw) split_size).2
  ∧ cmd !! 4%nat = Some ("-p" +:+ pw)
  ∧ cmd !! 5%nat = Some "-mhe=on"
  ∧ "-p" +:+ pw ∈ cmd
  ∧ "-mhe=on" ∈ cmd
  ∧ ∀ password split_size',
      ∃ encryption,
        compress_cmd batch_files archive_name level password split_size'
        = ["7z"; "a"; "-mx=" +:+ pretty level; str archive_name]
          ++ encryption
          ++ (if truthy_str split_size' then ["-v" +:+ default "" split_size'] else [])
          ++ map str batch_files
        ∧ (encryption = []
           ∨ ∃ pw', password = Some pw' ∧ pw' ≠ ""
                    ∧ encryption = ["-p" +:+ pw'; "-mhe=on"]).
Proof.
  intros Hpw cmd.
  assert (Ht : truthy_str (Some pw) = true).
  { simpl. by destruct (String.eqb_spec pw ""). }
  assert (H4 : cmd !! 4%nat = Some ("-p" +:+ pw)).
  { subst cmd. unfold compress_cmd. rewrite Ht. by destruct (truthy_str split_size). }
  assert (H5 : cmd !! 5%nat = Some "-mhe=on").
  { subst cmd. unfold compress_cmd. rewrite Ht. by destruct (truthy_str split_size). }
  split; [apply spawn_in_compress_batch|].
  split; [done|]. split; [done|].
  split; [by eapply list_elem_of_lookup_2|].
  split; [by eapply list_elem_of_lookup_2|].
  intros password split_size'. unfold compress_cmd.
  destruct (truthy_str password) eqn:Hp.
  - exists ["-p" +:+ default "" password; "-mhe=on"]. split.
    + by destruct (truthy_str split_size').
    + right. destruct password as [pw'|]; [|done]. exists pw'.
      simpl in Hp. by destruct (String.eqb_spec pw' "").
  - exists []. split; [|by left]. by destruct (truthy_str split_size').
Qed.

Lemma password_brings_header_encryption_witness :
  "secret" ≠ ""
  ∧ compress_cmd [["in"; "a.log"]] ["out"; "archive_1.7z"] 5 (Some "secret") None
    !! 5%nat = Some "-mhe=on".
Proof.
  split; [discriminate|].
  exact (proj1 (proj2 (proj2
    (password_brings_header_encryption env_verify_fails [["in"; "a.log"]]
       ["out"; "archive_1.7z"] 5 "secret" None ltac:(discriminate))))).
Defined.

(** C3. A dry run over the sample tree, whose output folder does not
    exist.  The run spawns no process, does not prompt and writes no
    report, and returns the two planned batches with no failure and no
    output; but it creates the output folder: [out] is absent before
    the run and a directory after it. *)
Theorem dry_run_creates_output_folder :
  let r := compress_in_batches fnmatch_posix env_verify_fails fs_demo args_dry_run in
  result r = Returns 2 0 28 0
  ∧ Forall (is_log_or_mkdir ["out"]) (trace r)
  ∧ Mkdir ["out"] ∈ trace r
  ∧ fs_demo !! ["out"] = None
  ∧ ∃ fs', fs_after fs_demo (trace r) = Some fs' ∧ fs' !! ["out"] = Some Dir.
Proof.
  intros r.
  destruct (dry_run_outcome fnmatch_posix env_verify_fails fs_demo args_dry_run
              ltac:(vm_compute; lia) eq_refl) as [_ Hkind].
  split; [vm_compute; reflexivity|]. split; [exact Hkind|].
  split; [subst r; find_event|]. split; [vm_compute; reflexivity|].
  eexists. split; [vm_compute; reflexivity|]. vm_compute. reflexivity.
Qed.

(** ** Skipping archives that exist *)

Lemma ancestors_and_self_length (out q : Path) :
  q ∈ ancestors_and_self out → (length q ≤ length out)%nat.
Proof.
  revert q. induction out as [|c out IH]; intros q; simpl.
  - by intros ?%elem_of_nil.
  - intros [->|Hq]%elem_of_cons; [simpl; lia|].
    apply list_elem_of_fmap in Hq as (q' & -> & Hq'). simpl.
    apply IH in Hq'. lia.
Qed.

Lemma foldl_mkdir_lookup (fs : FS) (dirs : list Path) (p : Path) :
  p ∉ dirs →
  foldl (λ m d, match m !! d with
                | Some _ => m
                | None => <[d := Dir]> m
                end) fs dirs !! p = fs !! p.
Proof.
  revert fs. induction dirs as [|d dirs IH]; intros fs Hp; [done|].
  apply not_elem_of_cons in Hp as [Hne Hp]. cbn [foldl]. rewrite IH by done.
  destruct (fs !! d); [done|]. by rewrite lookup_insert_ne.
Qed.

Lemma mkdir_parents_keeps (fs : FS) (out p : Path) (x : node) :
  fs !! p = Some x → mkdir_parents fs out !! p = Some x.
Proof.
  unfold mkdir_parents. revert fs.
  induction (ancestors_and_self out) as [|d dirs IH]; intros fs Hp; [done|].
  cbn [foldl]. apply IH. destruct (fs !! d) eqn:Hd; [done|].
  rewrite lookup_insert_ne; [done|]. intros ->. congruence.
Qed.

(** Creating the output folder does not change whether an archive in
    it exists. *)
Lemma path_exists_archive_mkdir (fs : FS) (a : Args) (num : nat) :
  path_exists (mkdir_parents fs (output_folder a)) (archive_path a num)
  = path_exists fs (archive_path a num).
Proof.
  unfold path_exists, mkdir_parents. rewrite foldl_mkdir_lookup; [done|].
  intros Hin%ancestors_and_self_length.
  unfold archive_path, joinpath in Hin. rewrite length_app in Hin. simpl in Hin. lia.
Qed.

Lemma str_joinpath_inj (out : Path) (x y : string) :
  str (joinpath out x) = str (joinpath out y) → x = y.
Proof.
  unfold str, joinpath. induction out as [|c out IH]; simpl; [done|].
  destruct out as [|d out]; simpl in *.
  - intros H. by apply (inj (String.append c)), (inj (String.append "/")) in H.
  - intros H. apply (inj (String.append c)), (inj (String.append "/")) in H.
    by apply IH.
Qed.

Lemma elem_of_planned fnmatch fs a b :
  b ∈ (planned fnmatch fs a).1 →
  skipped (mkdir_parents fs (output_folder a)) a b = false
  ∧ ∃ i, b = batch_at (mkdir_parents fs (output_folder a)) a (catalog fnmatch fs a) i.
Proof.
  unfold planned. rewrite plan_filter, list_elem_of_In, List.filter_In.
  intros [Hin Hs]. split; [by destruct (skipped _ a b)|].
  apply list_elem_of_In, list_elem_of_fmap in Hin as (i & -> & _). by eauto.
Qed.

Lemma filter_none {A} (f : A → bool) (l : list A) :
  (∀ x, x ∈ l → f x = false) → List.filter f l = [].
Proof.
  induction l as [|x l IH]; intros H; simpl; [done|].
  rewrite (H x) by apply list_elem_of_here.
  apply IH. intros y Hy. apply H. by apply list_elem_of_further.
Qed.

(** The candidates of the planning loop, by position. *)
Lemma elem_of_candidates fs' a files b :
  (1 ≤ batch_size a)%nat →
  b ∈ batch_at fs' a files <$> range 0 (length files) (batch_size a) ↔
  ∃ k, (k < total_batches_of (length files) (batch_size a))%nat
       ∧ b = batch_at fs' a files (k * batch_size a).
Proof.
  intros HB. rewrite range_multiples, Nat.sub_0_r, <- list_fmap_compose by done.
  rewrite list_elem_of_fmap. split.
  - intros (k & -> & Hk). exists k. split; [|done].
    apply list_elem_of_lookup in Hk as (i & [-> ?]%lookup_seq). lia.
  - intros (k & Hk & ->). exists k. split; [done|].
    apply list_elem_of_lookup. exists k. by apply lookup_seq.
Qed.

Lemma batch_at_archive fs' a files k :
  (1 ≤ batch_size a)%nat →
  archive_name (batch_at fs' a files (k * batch_size a)) = archive_path a (S k)
  ∧ batch_num (batch_at fs' a files (k * batch_size a)) = S k.
Proof.
  intros HB. unfold batch_at. simpl. rewrite Nat.div_mul by lia.
  by replace (k + 1)%nat with (S k) by lia.
Qed.

Lemma planned_all_skipped fnmatch fs a :
  (1 ≤ batch_size a)%nat →
  overwrite a = false →
  (∀ k, (k < total_batches_of (length (catalog fnmatch fs a)) (batch_size a))%nat →
        path_exists fs (archive_path a (S k)) = true) →
  (planned fnmatch fs a).1 = [].
Proof.
  intros HB Ho Hall. unfold planned. rewrite plan_filter.
  apply filter_none. intros b (k & Hk & ->)%elem_of_candidates; [|done].
  unfold skipped. rewrite (proj1 (batch_at_archive _ _ _ _ HB)).
  by rewrite path_exists_archive_mkdir, Hall, Ho.
Qed.

(** Every process of a run is spawned for a batch of its plan. *)
Lemma run_spawns fnmatch env fs a cmd :
  completes_each_once env →
  Spawn cmd ∈ trace (compress_in_batches fnmatch env fs a) →
  ∃ b, b ∈ (planned fnmatch fs a).1 ∧ (cmd = batch_cmd a b ∨ cmd = verify_cmd b).
Proof.
  intros Hperm Hin.
  destruct (run_shape fnmatch env fs a)
    as (pre & Hpre & [[Htr _]|(_ & _ & _ & _ & Htr)]); rewrite Htr in Hin.
  { rewrite Forall_forall in Hpre. by apply Hpre in Hin. }
  apply elem_of_app in Hin as [Hin|Hin]; [|apply elem_of_app in Hin as [Hin|Hin]].
  - rewrite Forall_forall in Hpre. by apply Hpre in Hin.
  - pose proof (execute_events env a (planned fnmatch fs a).1) as Hev.
    rewrite Forall_forall in Hev. apply Hev in Hin as (b & Hb & Hcmd).
    exists b. split; [|done].
    apply elem_of_app in Hb as [Hb|Hb]; [done|]. by rewrite (Hperm _) in Hb.
  - unfold export in Hin.
    destruct (truthy_str (metadata_file a) && _); [|by apply elem_of_nil in Hin].
    apply elem_of_cons in Hin as [Hin|Hin]; [discriminate|].
    apply list_elem_of_singleton in Hin. discriminate.
Qed.

Lemma batch_cmd_archive a b :
  batch_cmd a b !! 3%nat = Some (str (archive_name b))
  ∧ batch_cmd a b !! 1%nat = Some "a".
Proof.
  unfold batch_cmd, compress_cmd.
  by destruct (truthy_str (password a)), (truthy_str (split_size a)).
Qed.

(** A batch of the plan never shares a command line with a skipped
    candidate. *)
Lemma planned_cmd_not_skipped fnmatch fs a b k cmd :
  (1 ≤ batch_size a)%nat →
  b ∈ (planned fnmatch fs a).1 →
  cmd = batch_cmd a b ∨ cmd = verify_cmd b →
  skipped (mkdir_parents fs (output_folder a)) a
    (batch_at (mkdir_parents fs (output_folder a)) a (catalog fnmatch fs a)
       (k * batch_size a)) = true →
  cmd ≠ batch_cmd a (batch_at (mkdir_parents fs (output_folder a)) a
                       (catalog fnmatch fs a) (k * batch_size a))
  ∧ cmd ≠ verify_cmd (batch_at (mkdir_parents fs (output_folder a)) a
                        (catalog fnmatch fs a) (k * batch_size a)).
Proof.
  intros HB Hb Hcmd Hskip.
  set (fs' := mkdir_parents fs (output_folder a)) in *.
  set (c := batch_at fs' a (catalog fnmatch fs a) (k * batch_size a)) in *.
  destruct (elem_of_planned _ _ _ _ Hb) as [Hns Hcand]. fold fs' in Hns, Hcand.
  assert (Hname : str (archive_name b) = str (archive_name c) → False).
  { intros Heq. destruct Hcand as (i & Hbi).
    assert (archive_name b = archive_name c) as Hsame.
    { rewrite Hbi in Heq |- *. unfold c, batch_at in Heq |- *. simpl in Heq |- *.
      unfold archive_path in Heq |- *.
      by rewrite (str_joinpath_inj _ _ _ Heq). }
    unfold skipped in Hns, Hskip. rewrite Hsame in Hns. congruence. }
  destruct (batch_cmd_archive a b) as [Hb3 Hb1].
  destruct (batch_cmd_archive a c) as [Hc3 Hc1].
  destruct Hcmd as [-> | ->]; split; intros Heq.
  - rewrite Heq in Hb3. rewrite Hb3 in Hc3. injection Hc3 as Hc3. by apply Hname.
  - rewrite Heq in Hb1. discriminate.
  - rewrite <- Heq in Hc1. discriminate.
  - injection Heq as Heq. by apply Hname.
Qed.

Lemma plan_events_skip fs a files indices :
  Forall is_skip_warning (plan fs a files indices).2.
Proof.
  induction indices as [|i rest IH]; simpl; [constructor|].
  destruct (plan fs a files rest) as [batches evs]. simpl in *.
  destruct (path_exists fs _ && negb (overwrite a)); simpl; [|done].
  by constructor.
Qed.

(** A run over a catalog that is not empty starts by announcing the
    number of files, their size and the number of archives of line 387. *)
Lemma run_announces_total fnmatch env fs a :
  catalog fnmatch fs a ≠ [] →
  (1 ≤ batch_size a)%nat →
  Log INFO (MsgFound (length (catalog fnmatch fs a))
              (sum_sizes fs (catalog fnmatch fs a))
              (total_batches_of (length (catalog fnmatch fs a)) (batch_size a)))
  ∈ trace (compress_in_batches fnmatch env fs a).
Proof.
  intros Hne HB. unfold compress_in_batches.
  destruct (catalog fnmatch fs a) as [|f files] eqn:Hcat; [done|].
  destruct (batch_size a) as [|n] eqn:HBa; [lia|].
  rewrite <- HBa, <- Hcat.
  destruct (planned fnmatch fs a) as [[|b batches] evs]; cbn [trace].
  { rewrite !elem_of_app. by repeat left. }
  destruct (dry_run a); cbn [trace].
  { rewrite !elem_of_app. by repeat left. }
  destruct (negb (auto a) && negb (String.eqb (confirm env) "y")); cbn [trace].
  { destruct (auto a); rewrite !elem_of_app; by repeat left. }
  pose proof (execute_trace env a) as Htr.
  match goal with
  | |- context [execute env a ?tr ?bs] =>
      specialize (Htr tr bs); destruct (execute env a tr bs) as [t tr']
  end.
  cbn [snd trace] in Htr |- *. rewrite Htr.
  destruct (auto a); rewrite !elem_of_app; by repeat left.
Qed.

(** The run in which every batch is skipped. *)
Lemma run_nothing_to_do fnmatch env fs a :
  catalog fnmatch fs a ≠ [] →
  (1 ≤ batch_size a)%nat →
  (planned fnmatch fs a).1 = [] →
  let r := compress_in_batches fnmatch env fs a in
  result r = Returns 0 0 (sum_sizes fs (catalog fnmatch fs a)) 0
  ∧ (∃ pre, trace r = pre ++ [Log INFO MsgNoBatches])
  ∧ ∀ ev, ev ∈ trace r →
      match ev with
      | Log ERROR _ | Spawn _ | Prompt _ | WriteJson _ _ => False
      | _ => True
      end.
Proof.
  intros Hne HB Hnil r. subst r. unfold compress_in_batches.
  destruct (catalog fnmatch fs a) as [|f files] eqn:Hcat; [done|].
  destruct (batch_size a) as [|n] eqn:HBa; [lia|].
  rewrite <- HBa, <- Hcat.
  pose proof (plan_events_skip (mkdir_parents fs (output_folder a)) a
                (catalog fnmatch fs a)
                (range 0 (length (catalog fnmatch fs a)) (batch_size a))) as Hevs.
  fold (planned fnmatch fs a) in Hevs.
  destruct (planned fnmatch fs a) as [batches evs]. simpl in Hnil. subst batches.
  cbn [result trace snd] in *. split; [done|]. split; [by eexists|].
  intros ev. rewrite !elem_of_app. rewrite Forall_forall in Hevs.
  intros [[[Hin|[Hin|[Hin|Hin]]]|Hin]|Hin].
  - by apply list_elem_of_singleton in Hin as ->.
  - destruct (exclude_patterns a); [by apply elem_of_nil in Hin|].
    by apply list_elem_of_singleton in Hin as ->.
  - destruct (dry_run a); [|by apply elem_of_nil in Hin].
    by apply list_elem_of_singleton in Hin as ->.
  - by apply list_elem_of_singleton in Hin as ->.
  - apply Hevs in Hin. by destruct ev as [[] []| | | |].
  - by apply list_elem_of_singleton in Hin as ->.
Qed.

(** C6. Archives that exist are left alone.  With overwrite off, a
    candidate batch of the planning loop whose archive path exists is
    not part of the execution plan, and no process of the run is
    spawned with its command lines.  The number of archives that the
    run announces is still the number of all candidates.  When the
    archive of every candidate exists, the run returns no success and no
    failure together with the input size, logs that there is nothing to
    process and logs no error; over an empty catalog it instead logs
    the error that no files were found and returns zeros only. *)
Theorem existing_archives_are_skipped (fnmatch : string → string → bool)
    (env : Env) (fs : FS) (a : Args) :
  completes_each_once env →
  (1 ≤ batch_size a)%nat →
  overwrite a = false →
  let r := compress_in_batches fnmatch env fs a in
  let files := catalog fnmatch fs a in
  let total := total_batches_of (length files) (batch_size a) in
  let fs' := mkdir_parents fs (output_folder a) in
  (∀ k, (k < total)%nat →
     path_exists fs (archive_path a (S k)) = true →
     let b := batch_at fs' a files (k * batch_size a) in
     archive_name b = archive_path a (S k)
     ∧ ¬ b ∈ (planned fnmatch fs a).1
     ∧ ∀ cmd, Spawn cmd ∈ trace r → cmd ≠ batch_cmd a b ∧ cmd ≠ verify_cmd b)
  ∧ (files ≠ [] →
     Log INFO (MsgFound (length files) (sum_sizes fs files) total) ∈ trace r)
  ∧ (files ≠ [] →
     (∀ k, (k < total)%nat → path_exists fs (archive_path a (S k)) = true) →
     result r = Returns 0 0 (sum_sizes fs files) 0
     ∧ (∃ pre, trace r = pre ++ [Log INFO MsgNoBatches])
     ∧ ∀ ev, ev ∈ trace r →
         match ev with
         | Log ERROR _ | Spawn _ | Prompt _ | WriteJson _ _ => False
         | _ => True
         end)
  ∧ (files = [] →
     result r = Returns 0 0 0 0
     ∧ trace r = [Log ERROR (MsgNoFilesFound (str (input_folder a)))]).
Proof.
  intros Hperm HB Ho r files total fs'. split; [|split; [|split]].
  - intros k Hk Hex b.
    destruct (batch_at_archive fs' a files k HB) as [Hname _]. fold b in Hname.
    assert (Hskip : skipped fs' a b = true).
    { unfold skipped. rewrite Hname. unfold fs'.
      by rewrite path_exists_archive_mkdir, Hex, Ho. }
    split; [done|]. split.
    + intros [Hns _]%elem_of_planned. fold fs' in Hns. congruence.
    + intros cmd (b' & Hb' & Hcmd)%run_spawns; [|done].
      by eapply planned_cmd_not_skipped.
  - intros Hne. by apply run_announces_total.
  - intros Hne Hall. apply run_nothing_to_do; [done..|].
    by apply planned_all_skipped.
  - intros Hnil. subst r. unfold compress_in_batches. fold files. by rewrite Hnil.
Qed.

Lemma existing_archives_are_skipped_witness :
  completes_each_once env_verify_fails
  ∧ (1 ≤ batch_size args_demo)%nat
  ∧ overwrite args_demo = false
  ∧ result (compress_in_batches fnmatch_posix env_verify_fails fs_archived args_demo)
    = Returns 0 0 28 0.
Proof.
  split; [exact env_verify_fails_completes|].
  split; [vm_compute; lia|]. split; [reflexivity|].
  destruct (existing_archives_are_skipped fnmatch_posix env_verify_fails fs_archived
              args_demo env_verify_fails_completes ltac:(vm_compute; lia) eq_refl)
    as (_ & _ & Hall & _).
  destruct Hall as (Hres & _).
  - vm_compute. discriminate.
  - intros k Hk.
    assert (k = 0 ∨ k = 1)%nat as [-> | ->]
      by (vm_compute in Hk; lia); vm_compute; reflexivity.
  - rewrite Hres. vm_compute. reflexivity.
Defined.

Lemma tool_failure_is_contained_witness :
  completes_each_once env_tool_missing
  ∧ (1 ≤ batch_size args_demo)%nat
  ∧ dry_run args_demo = false
  ∧ (auto args_demo = true ∨ confirm env_tool_missing = "y")
  ∧ batch_one ∈ (planned fnmatch_posix fs_demo args_demo).1
  ∧ subprocess_run env_tool_missing (batch_cmd args_demo batch_one)
    = Raise (FileNotFoundError "[Errno 2] No such file or directory: '7z'")
  ∧ succeeded env_tool_missing args_demo batch_one = false
  ∧ ∃ tin tout,
      result (compress_in_batches fnmatch_posix env_tool_missing fs_demo args_demo)
      = Returns 1 1 tin tout.
Proof.
  assert (Hin : batch_one ∈ (planned fnmatch_posix fs_demo args_demo).1)
    by find_event.
  assert (Hraise : subprocess_run env_tool_missing (batch_cmd args_demo batch_one)
                   = Raise (FileNotFoundError "[Errno 2] No such file or directory: '7z'"))
    by (vm_compute; reflexivity).
  split; [exact env_tool_missing_completes|].
  split; [vm_compute; lia|]. split; [reflexivity|]. split; [by left|].
  split; [exact Hin|]. split; [exact Hraise|].
  destruct (tool_failure_is_contained fnmatch_posix env_tool_missing fs_demo
              args_demo batch_one _ env_tool_missing_completes
              ltac:(vm_compute; lia) eq_refl (or_introl eq_refl) Hin Hraise)
    as (_ & Hfail & (tin & tout & Hres) & _).
  split; [exact Hfail|]. exists tin, tout. rewrite Hres. vm_compute. reflexivity.
Defined.

Lemma planning_partitions_catalog_witness :
  (1 ≤ batch_size args_demo)%nat
  ∧ ∃ candidates : list Batch,
      length candidates = 2%nat
      ∧ concat (batch_files <$> candidates)
        = catalog fnmatch_posix fs_demo args_demo.
Proof.
  split; [vm_compute; lia|].
  destruct (planning_partitions_catalog fnmatch_posix fs_demo args_demo
              ltac:(vm_compute; lia))
    as (candidates & _ & _ & Hlen & _ & _ & _ & Hcat & _).
  exists candidates. split; [|exact Hcat].
  rewrite Hlen. vm_compute. reflexivity.
Defined.


(** * Further properties *)

(** ** The cases of a run *)

Lemma run_empty_catalog fnmatch env fs a :
  catalog fnmatch fs a = [] →
  compress_in_batches fnmatch env fs a
  = mkRun (Returns 0 0 0 0) [Log ERROR (MsgNoFilesFound (str (input_folder a)))].
Proof. intros H. unfold compress_in_batches. by rewrite H. Qed.

Lemma run_zero_batch_size fnmatch env fs a :
  catalog fnmatch fs a ≠ [] → batch_size a = 0%nat →
  compress_in_batches fnmatch env fs a = mkRun ZeroDivisionError [].
Proof.
  intros Hne HB. unfold compress_in_batches.
  destruct (catalog fnmatch fs a); [done|]. by rewrite HB.
Qed.

Lemma run_nothing_planned fnmatch env fs a :
  catalog fnmatch fs a ≠ [] → (1 ≤ batch_size a)%nat →
  (planned fnmatch fs a).1 = [] →
  compress_in_batches fnmatch env fs a
  = mkRun (Returns 0 0 (sum_sizes fs (catalog fnmatch fs a)) 0)
      ((header_events fs a (catalog fnmatch fs a) ++ (planned fnmatch fs a).2)
       ++ [Log INFO MsgNoBatches]).
Proof.
  intros Hne HB Hnil. unfold compress_in_batches, header_events.
  destruct (catalog fnmatch fs a) as [|f files] eqn:Hcat; [done|].
  destruct (batch_size a) as [|n] eqn:HBa; [lia|].
  rewrite <- HBa, <- Hcat.
  destruct (planned fnmatch fs a) as [batches evs]. simpl in Hnil. by subst.
Qed.

Lemma run_dry fnmatch env fs a :
  catalog fnmatch fs a ≠ [] → (1 ≤ batch_size a)%nat →
  (planned fnmatch fs a).1 ≠ [] → dry_run a = true →
  compress_in_batches fnmatch env fs a
  = mkRun (Returns (Z.of_nat (length (planned fnmatch fs a).1)) 0
             (sum_sizes fs (catalog fnmatch fs a)) 0)
      (planning_events fs a (catalog fnmatch fs a) (planned fnmatch fs a)
       ++ [Log INFO MsgDryRunComplete]).
Proof.
  intros Hne HB Hplan Hdry. unfold compress_in_batches, planning_events, header_events.
  destruct (catalog fnmatch fs a) as [|f files] eqn:Hcat; [done|].
  destruct (batch_size a) as [|n] eqn:HBa; [lia|].
  rewrite <- HBa, <- Hcat.
  destruct (planned fnmatch fs a) as [[|b batches] evs]; [done|].
  by rewrite Hdry.
Qed.

Lemma run_declined fnmatch env fs a :
  catalog fnmatch fs a ≠ [] → (1 ≤ batch_size a)%nat →
  (planned fnmatch fs a).1 ≠ [] → dry_run a = false →
  auto a = false → confirm env ≠ "y" →
  compress_in_batches fnmatch env fs a
  = mkRun (Returns 0 0 (sum_sizes fs (catalog fnmatch fs a)) 0)
      ((planning_events fs a (catalog fnmatch fs a) (planned fnmatch fs a)
        ++ [Prompt (length (planned fnmatch fs a).1)])
       ++ [Log WARNING MsgCancelled]).
Proof.
  intros Hne HB Hplan Hdry Hauto Hconf.
  unfold compress_in_batches, planning_events, header_events.
  destruct (catalog fnmatch fs a) as [|f files] eqn:Hcat; [done|].
  destruct (batch_size a) as [|n] eqn:HBa; [lia|].
  rewrite <- HBa, <- Hcat.
  destruct (planned fnmatch fs a) as [[|b batches] evs]; [done|].
  rewrite Hdry, Hauto. by destruct (String.eqb_spec (confirm env) "y").
Qed.

Lemma run_confirmed fnmatch env fs a :
  catalog fnmatch fs a ≠ [] → (1 ≤ batch_size a)%nat →
  (planned fnmatch fs a).1 ≠ [] → dry_run a = false →
  auto a = true ∨ confirm env = "y" →
  let files := catalog fnmatch fs a in
  let batches := (planned fnmatch fs a).1 in
  let t := final_totals env a batches in
  compress_in_batches fnmatch env fs a
  = mkRun (Returns (success_count t) (fail_count t) (sum_sizes fs files)
             (total_output_size t))
      (((planning_events fs a files (planned fnmatch fs a)
         ++ (if auto a then [] else [Prompt (length batches)]))
        ++ execution_events env a batches)
       ++ export a (initial_metadata env a (length files) (sum_sizes fs files)) t
            (sum_sizes fs files)).
Proof.
  intros Hne HB Hplan Hdry Hgo files batches t. subst files batches t.
  unfold compress_in_batches, planning_events, header_events, execution_events.
  destruct (catalog fnmatch fs a) as [|f files] eqn:Hcat; [done|].
  destruct (batch_size a) as [|n] eqn:HBa; [lia|].
  rewrite <- HBa, <- Hcat.
  destruct (planned fnmatch fs a) as [[|b batches] evs]; [done|].
  rewrite Hdry.
  assert (negb (auto a) && negb (String.eqb (confirm env) "y") = false) as ->.
  { destruct Hgo as [->| ->]; [done|]. by rewrite andb_false_r. }
  pose proof (execute_trace env a) as Htr.
  pose proof (execute_final_totals env a) as Htot.
  match goal with
  | |- context [execute env a ?tr ?bs] =>
      specialize (Htr tr bs); specialize (Htot tr bs);
      destruct (execute env a tr bs) as [t tr']
  end.
  cbn [fst snd] in Htr, Htot |- *. rewrite Htr, Htot.
  destruct (auto a); [by rewrite app_nil_r|done].
Qed.

(** ** What the phases contain *)





Lemma mkdir_in_planning_events fnmatch fs a :
  Mkdir (output_folder a)
  ∈ planning_events fs a (catalog fnmatch fs a) (planned fnmatch fs a).
Proof.
  unfold planning_events, header_events. rewrite !elem_of_app.
  left. left. do 3 right. apply list_elem_of_here.
Qed.

Lemma elem_of_execution_events env a batches ev :
  completes_each_once env →
  ev ∈ execution_events env a batches →
  match ev with
  | Log _ _ => True
  | Spawn cmd => ∃ b, b ∈ batches ∧ (cmd = batch_cmd a b ∨ cmd = verify_cmd b)
  | _ => False
  end.
Proof.
  intros Hperm Hin. pose proof (execute_events env a batches) as Hev.
  rewrite Forall_forall in Hev. apply Hev in Hin.
  destruct ev; try done. destruct Hin as (b & Hb & Hcmd). exists b. split; [|done].
  apply elem_of_app in Hb as [Hb|Hb]; [done|]. by rewrite (Hperm _) in Hb.
Qed.


Lemma planned_nonempty fnmatch fs a :
  (planned fnmatch fs a).1 ≠ [] →
  catalog fnmatch fs a ≠ [] ∧ (1 ≤ batch_size a)%nat.
Proof.
  intros Hne. split.
  - intros Hcat. apply Hne. unfold planned. rewrite Hcat. simpl.
    destruct (batch_size a) as [|n]; by simp range.
  - destruct (batch_size a) as [|n] eqn:HB; [|lia].
    exfalso. apply Hne. unfold planned. rewrite HB. by simp range.
Qed.

(** ** Dry runs, declined runs and the prompt *)

Lemma foldl_mkdir_member (fs : FS) (dirs : list Path) (p : Path) :
  p ∈ dirs →
  foldl (λ m d, match m !! d with
                | Some _ => m
                | None => <[d := Dir]> m
                end) fs dirs !! p = Some (default Dir (fs !! p)).
Proof.
  revert fs. induction dirs as [|d dirs IH]; intros fs Hp;
    [by apply elem_of_nil in Hp|].
  cbn [foldl]. destruct (decide (p ∈ dirs)) as [Hin|Hnin].
  - rewrite IH by done. destruct (fs !! d) eqn:Hd; [done|].
    destruct (decide (p = d)) as [->|Hne]; by simplify_map_eq.
  - apply elem_of_cons in Hp as [->|?]; [|done].
    rewrite foldl_mkdir_lookup by done.
    destruct (fs !! d) eqn:Hd; by simplify_map_eq.
Qed.

(** After a [mkdir] that does not raise, the folder and every folder on
    the way to it are directories. *)
Lemma mkdir_parents_is_dir (fs : FS) (out d : Path) :
  mkdir_raises fs out = false →
  d ∈ ancestors_and_self out →
  is_dir (mkdir_parents fs out) d = true.
Proof.
  intros Hok Hd. unfold is_dir, mkdir_parents. rewrite foldl_mkdir_member by done.
  unfold mkdir_raises in Hok.
  assert (is_file fs d = false) as Hfile.
  { apply not_true_is_false. intros Hf. apply not_true_iff_false in Hok. apply Hok.
    apply existsb_exists. exists d. by rewrite <- list_elem_of_In. }
  unfold is_file in Hfile. by destruct (fs !! d) as [[]|].
Qed.

Lemma mkdir_raises_mono (fs fs' : FS) (out : Path) :
  (∀ p, is_file fs' p = true → is_file fs p = true) →
  mkdir_raises fs out = false → mkdir_raises fs' out = false.
Proof.
  unfold mkdir_raises. intros Hsub Hok. apply not_true_is_false.
  intros (d & Hd & Hf)%existsb_exists. apply not_true_iff_false in Hok. apply Hok.
  apply existsb_exists. exists d. auto.
Qed.

Lemma is_file_mkdir_parents (fs : FS) (out p : Path) :
  is_file (mkdir_parents fs out) p = true → is_file fs p = true.
Proof.
  unfold is_file, mkdir_parents.
  destruct (decide (p ∈ ancestors_and_self out)) as [Hin|Hnin].
  - rewrite foldl_mkdir_member by done. by destruct (fs !! p) as [[]|].
  - by rewrite foldl_mkdir_lookup.
Qed.

(** The file system after a trace of log lines and creations of the
    output folder, none of which raises. *)
Lemma fs_after_log_or_mkdir (fs : FS) (out : Path) (tr : list event) :
  mkdir_raises fs out = false →
  Forall (is_log_or_mkdir out) tr →
  ∃ fs', fs_after fs tr = Some fs'
         ∧ (∀ p x, fs !! p = Some x → fs' !! p = Some x)
         ∧ (Mkdir out ∈ tr →
            ∀ d, d ∈ ancestors_and_self out → is_dir fs' d = true).
Proof.
  unfold fs_after. revert fs. induction tr as [|ev tr IH]; intros fs Hok Hall.
  { exists fs. split; [done|]. split; [done|]. by intros ?%elem_of_nil. }
  apply Forall_cons in Hall as [Hev Hall]. cbn [foldl].
  destruct ev as [lvl msg|q| | |]; simpl in Hev; try done.
  - destruct (IH fs Hok Hall) as (fs' & Hfs & Hkeep & Hdirs).
    exists fs'. split; [done|]. split; [done|].
    intros [?|Hin]%elem_of_cons; [done|]. by apply Hdirs.
  - subst q. cbn [apply_event fmap option_fmap option_map].
    assert (Hok' : mkdir_raises (mkdir_parents fs out) out = false).
    { apply (mkdir_raises_mono fs); [|done]. apply is_file_mkdir_parents. }
    destruct (IH _ Hok' Hall) as (fs' & Hfs & Hkeep & _).
    exists fs'. split; [done|]. split.
    + intros p x Hp. by apply Hkeep, mkdir_parents_keeps.
    + intros _ d Hd. pose proof (mkdir_parents_is_dir fs out d Hok Hd) as Hdir.
      unfold is_dir in *.
      destruct (mkdir_parents fs out !! d) as [[]|] eqn:Hl; try done.
      by rewrite (Hkeep _ _ Hl).
Qed.

(** A dry run over an input folder that is a directory, towards an
    output folder that can be created (neither it nor a folder on the
    way to it is a regular file), returns the number of batches it
    would run, no failure, the input size and no output.  It spawns no
    process, does not prompt and writes no report; the one thing it
    does besides logging is to create the output folder, which it does
    exactly when the catalog is not empty, and then the output folder
    and every folder on the way to it are directories afterwards. *)
Theorem dry_run_plans_only (fnmatch : string → string → bool)
    (env : Env) (fs : FS) (a : Args) :
  (1 ≤ batch_size a)%nat →
  is_dir fs (input_folder a) = true →
  mkdir_raises fs (output_folder a) = false →
  dry_run a = true →
  let r := compress_in_batches fnmatch env fs a in
  result r = Returns (Z.of_nat (length (planned fnmatch fs a).1)) 0
               (sum_sizes fs (catalog fnmatch fs a)) 0
  ∧ (∀ ev, ev ∈ trace r → ev = Mkdir (output_folder a) ∨ is_outside_event ev = false)
  ∧ (Mkdir (output_folder a) ∈ trace r ↔ catalog fnmatch fs a ≠ [])
  ∧ ∃ fs', fs_after fs (trace r) = Some fs'
           ∧ (∀ p x, fs !! p = Some x → fs' !! p = Some x)
           ∧ (catalog fnmatch fs a ≠ [] →
              ∀ d, d ∈ ancestors_and_self (output_folder a) → is_dir fs' d = true).
Proof.
  intros HB _ Hok Hdry r.
  destruct (dry_run_outcome fnmatch env fs a HB Hdry) as [Hres Hkind].
  assert (Hmk : Mkdir (output_folder a) ∈ trace r ↔ catalog fnmatch fs a ≠ []).
  { subst r. split.
    - intros Hin Hcat. rewrite run_empty_catalog in Hin by done.
      by apply list_elem_of_singleton in Hin.
    - intros Hne.
      destruct (decide ((planned fnmatch fs a).1 = [])) as [Hnil|Hplan].
      + rewrite run_nothing_planned by done. cbn [trace]. unfold header_events.
        rewrite !elem_of_app. left. left. do 3 right. apply list_elem_of_here.
      + rewrite run_dry by done. cbn [trace]. apply elem_of_app. left.
        apply mkdir_in_planning_events. }
  split; [exact Hres|]. split; [|split; [exact Hmk|]].
  - intros ev Hin. rewrite Forall_forall in Hkind. apply Hkind in Hin.
    destruct ev; simpl in Hin; try done; [by right|by left; subst].
  - destruct (fs_after_log_or_mkdir fs (output_folder a) (trace r) Hok Hkind)
      as (fs' & Hfs & Hkeep & Hdirs).
    exists fs'. split; [done|]. split; [done|].
    intros Hne. by apply Hdirs, Hmk.
Qed.

Lemma dry_run_plans_only_witness :
  (1 ≤ batch_size args_dry_run)%nat
  ∧ is_dir fs_demo (input_folder args_dry_run) = true
  ∧ mkdir_raises fs_demo (output_folder args_dry_run) = false
  ∧ dry_run args_dry_run = true
  ∧ result (compress_in_batches fnmatch_posix env_verify_fails fs_demo args_dry_run)
    = Returns 2 0 28 0.
Proof.
  split; [vm_compute; lia|]. do 3 (split; [vm_compute; reflexivity|]).
  destruct (dry_run_plans_only fnmatch_posix env_verify_fails fs_demo args_dry_run
              ltac:(vm_compute; lia) ltac:(vm_compute; reflexivity)
              ltac:(vm_compute; reflexivity) eq_refl) as (Hres & _).
  rewrite Hres. vm_compute. reflexivity.
Defined.





(** ** The report *)



(** ** The shape of the plan *)

Lemma elem_of_planned_candidate fnmatch fs a b :
  b ∈ (planned fnmatch fs a).1 →
  (1 ≤ batch_size a)%nat
  ∧ ∃ k, (k < total_batches_of (length (catalog fnmatch fs a)) (batch_size a))%nat
         ∧ b = batch_at (mkdir_parents fs (output_folder a)) a
                 (catalog fnmatch fs a) (k * batch_size a).
Proof.
  intros Hb.
  assert (Hne : (planned fnmatch fs a).1 ≠ []).
  { intros Hnil. rewrite Hnil in Hb. by apply elem_of_nil in Hb. }
  destruct (planned_nonempty _ _ _ Hne) as [_ HB]. split; [done|].
  unfold planned in Hb. rewrite plan_filter in Hb.
  apply list_elem_of_In, List.filter_In in Hb as [Hb _].
  apply list_elem_of_In in Hb. by apply elem_of_candidates in Hb.
Qed.

Lemma position_below_total (n B k : nat) :
  (1 ≤ B)%nat → (k < total_batches_of n B)%nat → (k * B < n)%nat.
Proof.
  intros HB Hk. destruct (total_batches_of_ceil n B HB) as [_ Hmin].
  destruct (decide (k * B < n)%nat) as [|Hge]; [done|].
  specialize (Hmin k ltac:(lia)). lia.
Qed.

(** Every batch of the execution plan holds at least one file and at
    most [batch_size] files, all of them from the catalog; its number
    lies between one and the number of line 387, and every batch but
    the one with the last number is full. *)
Theorem planned_batches_are_full_but_the_last (fnmatch : string → string → bool)
    (fs : FS) (a : Args) (b : Batch) :
  b ∈ (planned fnmatch fs a).1 →
  let files := catalog fnmatch fs a in
  let total := total_batches_of (length files) (batch_size a) in
  (1 ≤ length (batch_files b) ≤ batch_size a)%nat
  ∧ (1 ≤ batch_num b ≤ total)%nat
  ∧ ((batch_num b < total)%nat → length (batch_files b) = batch_size a)
  ∧ ((batch_num b = total)%nat →
     length (batch_files b) = (length files - (total - 1) * batch_size a)%nat)
  ∧ (∀ f, f ∈ batch_files b → f ∈ files).
Proof.
  intros Hb files total.
  destruct (elem_of_planned_candidate _ _ _ _ Hb) as (HB & k & Hk & ->).
  fold files total in Hk.
  pose proof (position_below_total _ _ _ HB Hk) as Hlt. fold files in Hlt.
  destruct (batch_at_archive (mkdir_parents fs (output_folder a)) a
              (catalog fnmatch fs a) k HB) as [_ Hnum].
  rewrite Hnum. unfold batch_at. cbn [batch_files]. fold files.
  rewrite length_take, length_drop.
  split; [lia|]. split; [lia|]. split; [|split].
  - intros Hnext.
    pose proof (position_below_total _ _ _ HB Hnext) as Hlt'. fold files in Hlt'.
    simpl in Hlt'. lia.
  - intros Hlast. replace (total - 1)%nat with k by lia.
    destruct (total_batches_of_ceil (length files) (batch_size a) HB) as [Hup _].
    fold total in Hup. rewrite <- Hlast in Hup. simpl in Hup. lia.
  - intros f Hf. by apply subseteq_take, subseteq_drop in Hf.
Qed.

Lemma planned_batches_are_full_but_the_last_witness :
  batch_one ∈ (planned fnmatch_posix fs_demo args_demo).1
  ∧ (1 ≤ length (batch_files batch_one) ≤ batch_size args_demo)%nat.
Proof.
  assert (Hin : batch_one ∈ (planned fnmatch_posix fs_demo args_demo).1)
    by find_event.
  split; [exact Hin|].
  exact (proj1 (planned_batches_are_full_but_the_last fnmatch_posix fs_demo
                  args_demo batch_one Hin)).
Defined.

Lemma string_length_app (s t : string) :
  String.length (s +:+ t) = (String.length s + String.length t)%nat.
Proof. induction s as [|c s IH]; simpl; [done|]. by rewrite IH. Qed.

Lemma string_app_inj_r (s1 s2 t : string) : s1 +:+ t = s2 +:+ t → s1 = s2.
Proof.
  revert s2. induction s1 as [|c s1 IH]; intros [|d s2] H; simpl in H.
  - done.
  - apply (f_equal String.length) in H.
    rewrite ?string_length_app in H. simpl in H.
    rewrite ?string_length_app in H. lia.
  - apply (f_equal String.length) in H.
    rewrite ?string_length_app in H. simpl in H.
    rewrite ?string_length_app in H. lia.
  - injection H as -> H. f_equal. by apply IH.
Qed.

Lemma archive_path_str_inj (a : Args) (m n : nat) :
  str (archive_path a m) = str (archive_path a n) → m = n.
Proof.
  unfold archive_path. intros H%str_joinpath_inj.
  apply (inj (String.append (output_prefix a))) in H.
  apply (inj (String.append "_")) in H.
  apply string_app_inj_r in H. by apply (inj pretty) in H.
Qed.

(** Within one run no two batches of the plan share an archive: two
    batches whose archive paths print alike are the same batch, and so
    are two batches with the same number. *)
Theorem archive_paths_are_unique (fnmatch : string → string → bool)
    (fs : FS) (a : Args) (b b' : Batch) :
  b ∈ (planned fnmatch fs a).1 →
  b' ∈ (planned fnmatch fs a).1 →
  (str (archive_name b) = str (archive_name b') → b = b')
  ∧ (batch_num b = batch_num b' → b = b')
  ∧ (b ≠ b' → batch_cmd a b ≠ batch_cmd a b' ∧ verify_cmd b ≠ verify_cmd b').
Proof.
  intros Hb Hb'.
  destruct (elem_of_planned_candidate _ _ _ _ Hb) as (HB & k & _ & ->).
  destruct (elem_of_planned_candidate _ _ _ _ Hb') as (_ & k' & _ & ->).
  set (fs' := mkdir_parents fs (output_folder a)).
  set (files := catalog fnmatch fs a).
  destruct (batch_at_archive fs' a files k HB) as [Hname Hnum].
  destruct (batch_at_archive fs' a files k' HB) as [Hname' Hnum'].
  assert (Hstr : str (archive_name (batch_at fs' a files (k * batch_size a)))
                 = str (archive_name (batch_at fs' a files (k' * batch_size a))) →
                 batch_at fs' a files (k * batch_size a)
                 = batch_at fs' a files (k' * batch_size a)).
  { rewrite Hname, Hname'. intros H%archive_path_str_inj. by injection H as ->. }
  split; [exact Hstr|]. split.
  - rewrite Hnum, Hnum'. by intros [= ->].
  - intros Hne. split; intros Heq; apply Hne, Hstr.
    + destruct (batch_cmd_archive a (batch_at fs' a files (k * batch_size a)))
        as [H3 _].
      destruct (batch_cmd_archive a (batch_at fs' a files (k' * batch_size a)))
        as [H3' _].
      rewrite Heq in H3. rewrite H3 in H3'. by injection H3'.
    + by injection Heq.
Qed.

Lemma archive_paths_are_unique_witness :
  batch_one ∈ (planned fnmatch_posix fs_demo args_demo).1
  ∧ batch_two ∈ (planned fnmatch_posix fs_demo args_demo).1
  ∧ batch_one ≠ batch_two
  ∧ batch_cmd args_demo batch_one ≠ batch_cmd args_demo batch_two
  ∧ verify_cmd batch_one ≠ verify_cmd batch_two.
Proof.
  assert (Hin : batch_one ∈ (planned fnmatch_posix fs_demo args_demo).1)
    by find_event.
  assert (Hin' : batch_two ∈ (planned fnmatch_posix fs_demo args_demo).1)
    by find_event.
  assert (Hne : batch_one ≠ batch_two) by discriminate.
  split; [exact Hin|]. split; [exact Hin'|]. split; [exact Hne|].
  exact (proj2 (proj2 (archive_paths_are_unique fnmatch_posix fs_demo args_demo
                         batch_one batch_two Hin Hin')) Hne).
Defined.

Lemma catalog_member_recursive fnmatch fs folder pats f :
  f ∈ get_files_recursive fnmatch fs folder pats →
  f ∈ rglob fs folder ∧ is_file fs f = true
  ∧ excluded_recursive fnmatch f pats = false.
Proof.
  unfold get_files_recursive. by rewrite sorted_Permutation, elem_of_scan.
Qed.

Lemma catalog_member_flat fnmatch fs folder pats f :
  f ∈ get_files_flat fnmatch fs folder pats →
  f ∈ iterdir fs folder ∧ is_file fs f = true
  ∧ excluded_flat fnmatch f pats = false.
Proof.
  unfold get_files_flat. by rewrite sorted_Permutation, elem_of_scan.
Qed.

Lemma catalog_is_file fnmatch fs a f :
  f ∈ catalog fnmatch fs a → is_file fs f = true.
Proof.
  unfold catalog. destruct (recursive a).
  - by intros (_ & ? & _)%catalog_member_recursive.
  - by intros (_ & ? & _)%catalog_member_flat.
Qed.

Lemma chunks_cover {A} (l : list A) (B : nat) :
  (1 ≤ B)%nat →
  concat ((λ k, take B (drop (k * B) l)) <$> seq 0 (total_batches_of (length l) B)) = l.
Proof.
  intros HB. rewrite concat_chunks. apply take_ge.
  by destruct (total_batches_of_ceil (length l) B HB).
Qed.

Lemma st_size_mkdir fnmatch fs a f :
  f ∈ catalog fnmatch fs a →
  st_size (mkdir_parents fs (output_folder a)) f = st_size fs f.
Proof.
  intros Hf%catalog_is_file. unfold is_file, st_size in *.
  destruct (fs !! f) as [x|] eqn:Hl; [|done].
  by rewrite (mkdir_parents_keeps _ _ _ _ Hl).
Qed.

Lemma sum_sizes_ext (fs fs' : FS) (files : list Path) :
  (∀ f, f ∈ files → st_size fs' f = st_size fs f) →
  sum_sizes fs' files = sum_sizes fs files.
Proof.
  induction files as [|f files IH]; intros H; simpl; [done|].
  rewrite (H f) by apply list_elem_of_here.
  rewrite IH; [done|]. intros g Hg. apply H. by apply list_elem_of_further.
Qed.

Lemma sum_sizes_app (fs : FS) (l1 l2 : list Path) :
  sum_sizes fs (l1 ++ l2) = sum_sizes fs l1 + sum_sizes fs l2.
Proof. induction l1 as [|f l1 IH]; simpl; [done|]. rewrite IH. lia. Qed.

Lemma sum_sizes_concat (fs : FS) (ls : list (list Path)) :
  sum_sizes fs (concat ls) = sumZ (sum_sizes fs) ls.
Proof.
  induction ls as [|l ls IH]; simpl; [done|]. by rewrite sum_sizes_app, IH.
Qed.

(** The input size recorded for a batch of the plan is the sum of the
    sizes of its files; and when nothing is skipped the input sizes of
    the batches add up to the total input size that the run returns. *)
Theorem batch_input_sizes_add_up (fnmatch : string → string → bool)
    (fs : FS) (a : Args) :
  (1 ≤ batch_size a)%nat →
  (∀ b, b ∈ (planned fnmatch fs a).1 →
     batch_input_size b = sum_sizes fs (batch_files b))
  ∧ (overwrite a = true →
     sumZ batch_input_size (planned fnmatch fs a).1
     = sum_sizes fs (catalog fnmatch fs a)).
Proof.
  intros HB.
  assert (Hsize : ∀ i,
    batch_input_size (batch_at (mkdir_parents fs (output_folder a)) a
                        (catalog fnmatch fs a) i)
    = sum_sizes fs (batch_files (batch_at (mkdir_parents fs (output_folder a)) a
                                   (catalog fnmatch fs a) i))).
  { intros i. unfold batch_at. cbn [batch_input_size batch_files].
    apply sum_sizes_ext. intros f Hf. apply (st_size_mkdir fnmatch).
    by apply subseteq_take, subseteq_drop in Hf. }
  split.
  - intros b (_ & i & ->)%elem_of_planned. apply Hsize.
  - intros Ho.
    pose proof (chunks_cover (catalog fnmatch fs a) (batch_size a) HB) as Hcat.
    unfold planned. rewrite plan_overwrite by done. cbn [fst].
    etrans; [|apply (f_equal (sum_sizes fs) Hcat)].
    rewrite sum_sizes_concat. clear Hcat.
    rewrite range_multiples, Nat.sub_0_r, <- !list_fmap_compose by done.
    induction (seq 0 _) as [|k ks IH]; [done|].
    rewrite !fmap_cons. unfold sumZ in *. cbn [foldr]. rewrite IH. f_equal.
    apply (Hsize (0 + k * batch_size a)%nat).
Qed.

Lemma batch_input_sizes_add_up_witness :
  (1 ≤ batch_size args_prompt)%nat
  ∧ overwrite args_prompt = true
  ∧ sumZ batch_input_size (planned fnmatch_posix fs_demo args_prompt).1 = 24.
Proof.
  split; [vm_compute; lia|]. split; [reflexivity|].
  rewrite (proj2 (batch_input_sizes_add_up fnmatch_posix fs_demo args_prompt
                    ltac:(vm_compute; lia)) eq_refl).
  vm_compute. reflexivity.
Defined.

(** ** Processes *)







(** ** Completion order *)

(** What a run returns does not depend on the order in which the
    futures complete: with the same answers of 7z, of the file system
    and of the user, two orders of completion give the same four
    numbers, and the same records in the report, up to their order. *)
Theorem totals_independent_of_completion_order (fnmatch : string → string → bool)
    (env : Env) (order : list Batch → list Batch) (fs : FS) (a : Args) :
  completes_each_once env →
  (∀ batches, order batches ≡ₚ batches) →
  result (compress_in_batches fnmatch (with_order env order) fs a)
  = result (compress_in_batches fnmatch env fs a)
  ∧ appended (final_totals (with_order env order) a (planned fnmatch fs a).1)
    ≡ₚ appended (final_totals env a (planned fnmatch fs a).1).
Proof.
  intros Hperm Horder.
  assert (Hperm' : completes_each_once (with_order env order)) by exact Horder.
  pose proof (execute_totals env a [] (planned fnmatch fs a).1 Hperm)
    as (H1 & H2 & H3 & H4).
  pose proof (execute_totals (with_order env order) a [] (planned fnmatch fs a).1 Hperm')
    as (H1' & H2' & H3' & H4').
  fold (final_totals env a (planned fnmatch fs a).1) in H1, H2, H3, H4.
  fold (final_totals (with_order env order) a (planned fnmatch fs a).1)
    in H1', H2', H3', H4'.
  split.
  - destruct (decide ((planned fnmatch fs a).1 = [])) as [Hnil|Hplan].
    { destruct (decide (catalog fnmatch fs a = [])) as [Hcat|Hcat].
      { by rewrite !run_empty_catalog. }
      destruct (decide (batch_size a = 0%nat)) as [HB|HB].
      { by rewrite !run_zero_batch_size. }
      by rewrite !run_nothing_planned by (done || lia). }
    destruct (planned_nonempty _ _ _ Hplan) as [Hne HB].
    destruct (dry_run a) eqn:Hdry.
    { by rewrite !run_dry. }
    destruct (decide (auto a = true ∨ confirm env = "y")) as [Hgo|Hno].
    + rewrite !run_confirmed by done. cbn [result].
      by rewrite H1, H2, H3, H1', H2', H3'.
    + assert (auto a = false ∧ confirm env ≠ "y") as [Hauto Hconf].
      { destruct (auto a); [exfalso; auto|]. split; [done|]. intros ?. auto. }
      by rewrite !run_declined.
  - rewrite H4, H4'. apply Permutation_flat_map.
    cbn [as_completed with_order]. by rewrite (Horder _), (Hperm _).
Qed.

Lemma totals_independent_of_completion_order_witness :
  completes_each_once env_verify_fails
  ∧ (∀ batches : list Batch, (λ bs, bs) batches ≡ₚ batches)
  ∧ result (compress_in_batches fnmatch_posix
              (with_order env_verify_fails (λ bs, bs)) fs_demo args_demo)
    = Returns 1 1 28 200.
Proof.
  split; [exact env_verify_fails_completes|]. split; [done|].
  rewrite (proj1 (totals_independent_of_completion_order fnmatch_posix
                    env_verify_fails (λ bs, bs) fs_demo args_demo
                    env_verify_fails_completes (λ bs, reflexivity bs))).
  vm_compute. reflexivity.
Defined.

(** ** The order of the catalog *)

Lemma string_compare_refl (s : string) : String.compare s s = Eq.
Proof.
  induction s as [|c s IH]; simpl; [done|].
  unfold Ascii.compare. by rewrite N.compare_refl, IH.
Qed.

Lemma string_compare_lt_trans (c d e : string) :
  String.compare c d = Lt → String.compare d e = Lt → String.compare c e = Lt.
Proof.
  intros Hcd Hde.
  assert (Hle : String.le c e).
  { trans d; unfold String.le, String.leb; [by rewrite Hcd|by rewrite Hde]. }
  unfold String.le, String.leb in Hle.
  destruct (String.compare c e) eqn:Hce; [|done..].
  apply String.compare_eq_iff in Hce as ->.
  rewrite String.compare_antisym, Hcd in Hde. done.
Qed.

Lemma path_le_trans : Transitive path_le.
Proof.
  unfold path_le. intros p. induction p as [|c p IH]; intros q r; simpl; [done|].
  destruct q as [|d q]; simpl; [done|]. destruct r as [|e r]; simpl.
  { by destruct (String.compare c d). }
  destruct (String.compare c d) eqn:Hcd; [|  |done].
  - apply String.compare_eq_iff in Hcd as ->.
    destruct (String.compare d e); [apply IH|done..].
  - destruct (String.compare d e) eqn:Hde; [| |done].
    + apply String.compare_eq_iff in Hde as ->. by rewrite Hcd.
    + by rewrite (string_compare_lt_trans _ _ _ Hcd Hde).
Qed.

Lemma path_le_antisym : AntiSymm (=) path_le.
Proof.
  unfold path_le. intros p. induction p as [|c p IH]; intros [|d q]; simpl;
    [done..|].
  rewrite (String.compare_antisym d c).
  destruct (String.compare c d) eqn:Hcd; simpl; [|done..].
  apply String.compare_eq_iff in Hcd as ->. intros ??. f_equal. by apply IH.
Qed.

Lemma scan_Permutation is_f excluded (l1 l2 : list Path) :
  l1 ≡ₚ l2 → scan is_f excluded l1 ≡ₚ scan is_f excluded l2.
Proof.
  induction 1 as [|x l1 l2 _ IH|x y l|l1 l2 l3 _ IH1 _ IH2]; simpl.
  - done.
  - destruct (is_f x); [destruct (excluded x)|]; by rewrite ?IH.
  - destruct (is_f x), (is_f y); try destruct (excluded x);
      try destruct (excluded y); try done. apply perm_swap.
  - by etrans.
Qed.

Lemma sorted_unique (l1 l2 : list Path) : l1 ≡ₚ l2 → sorted l1 = sorted l2.
Proof.
  intros Hperm.
  apply (Sorted_unique path_le (Transitive0:=path_le_trans)
           (AntiSymm0:=path_le_antisym)).
  - apply sorted_Sorted.
  - apply sorted_Sorted.
  - by rewrite !sorted_Permutation.
Qed.

(** The catalog is the same whatever the order in which the operating
    system lists the folder: scanning any rearrangement of the entries
    gives the same list, in both modes.  That list is in the order of
    [Path] objects and holds no path twice. *)
Theorem catalog_independent_of_listing_order (fnmatch : string → string → bool)
    (fs : FS) (folder : Path) (exclude_patterns : list string)
    (listing : list Path) :
  (listing ≡ₚ rglob fs folder →
   sorted (scan (is_file fs) (λ f, excluded_recursive fnmatch f exclude_patterns)
             listing)
   = get_files_recursive fnmatch fs folder exclude_patterns)
  ∧ (listing ≡ₚ iterdir fs folder →
     sorted (scan (is_file fs) (λ f, excluded_flat fnmatch f exclude_patterns)
               listing)
     = get_files_flat fnmatch fs folder exclude_patterns)
  ∧ Sorted path_le (get_files_recursive fnmatch fs folder exclude_patterns)
  ∧ Sorted path_le (get_files_flat fnmatch fs folder exclude_patterns)
  ∧ NoDup (get_files_recursive fnmatch fs folder exclude_patterns)
  ∧ NoDup (get_files_flat fnmatch fs folder exclude_patterns).
Proof.
  unfold get_files_recursive, get_files_flat.
  split; [|split; [|split; [|split; [|split]]]].
  - intros H. by apply sorted_unique, scan_Permutation.
  - intros H. by apply sorted_unique, scan_Permutation.
  - apply sorted_Sorted.
  - apply sorted_Sorted.
  - rewrite sorted_Permutation. apply NoDup_scan, NoDup_rglob.
  - rewrite sorted_Permutation. apply NoDup_scan, NoDup_iterdir.
Qed.

Lemma catalog_independent_of_listing_order_witness :
  reverse (rglob fs_demo ["in"]) ≡ₚ rglob fs_demo ["in"]
  ∧ sorted (scan (is_file fs_demo)
              (λ f, excluded_recursive fnmatch_posix f ["*.log"])
              (reverse (rglob fs_demo ["in"])))
    = [["in"; "b.tmp"]; ["in"; "c.txt"]; ["in"; "sub"; "d.txt"]].
Proof.
  split; [apply reverse_Permutation|].
  rewrite (proj1 (catalog_independent_of_listing_order fnmatch_posix fs_demo ["in"]
                    ["*.log"] (reverse (rglob fs_demo ["in"])))
             (reverse_Permutation _)).
  vm_compute. reflexivity.
Defined.

(** ** The command line *)

Example main_demo :
  exit_status (main fnmatch_posix path_of_demo which_demo true parse_size_demo
                 env_verify_fails fs_demo ns_demo) = Return 1.
Proof. vm_compute. reflexivity. Qed.

Lemma final_totals_nonneg env a batches :
  0 ≤ success_count (final_totals env a batches)
  ∧ 0 ≤ fail_count (final_totals env a batches).
Proof.
  unfold final_totals, execute.
  match goal with
  | |- context [foldl (collect env a) ?st ?bs] =>
      destruct (foldl_collect_totals env a st bs) as (-> & -> & _)
  end.
  cbn [fst success_count fail_count].
  assert (Hsum : ∀ (c : Batch → bool) (l : list Batch),
            0 ≤ sumZ (λ b, indicator (c b)) l).
  { intros c l. induction l as [|b l IH]; simpl; [done|]. destruct (c b); simpl; lia. }
  split; rewrite Z.add_0_l; apply Hsum.
Qed.

(** A run whose batch size is at least one returns four numbers, the
    first two of which are not negative. *)
Lemma run_returns fnmatch env fs a :
  (1 ≤ batch_size a)%nat →
  ∃ s f i o, result (compress_in_batches fnmatch env fs a) = Returns s f i o
             ∧ 0 ≤ s ∧ 0 ≤ f.
Proof.
  intros HB.
  destruct (decide ((planned fnmatch fs a).1 = [])) as [Hnil|Hplan].
  { destruct (decide (catalog fnmatch fs a = [])) as [Hcat|Hcat].
    { rewrite run_empty_catalog by done. by eexists 0, 0, _, _. }
    rewrite run_nothing_planned by done. by eexists 0, 0, _, _. }
  destruct (planned_nonempty _ _ _ Hplan) as [Hne _].
  destruct (dry_run a) eqn:Hdry.
  { rewrite run_dry by done. eexists _, 0, _, _. split; [done|]. lia. }
  destruct (decide (auto a = true ∨ confirm env = "y")) as [Hgo|Hno].
  - rewrite run_confirmed by done. eexists _, _, _, _. split; [done|].
    apply final_totals_nonneg.
  - assert (auto a = false ∧ confirm env ≠ "y") as [Hauto Hconf].
    { destruct (auto a); [exfalso; auto|]. split; [done|]. intros ?. auto. }
    rewrite run_declined by done. by eexists 0, 0, _, _.
Qed.

(** [validate_args] lets a command line through exactly when it asks
    for [--check] or [--version], or when input and output are given,
    batch size and thread count are at least one, the compression level
    lies between 0 and 9, the input is an existing directory, the prefix
    holds none of the nine forbidden characters, and the split size, if
    one is given, is one that [parse_size] accepts. *)
Theorem validation_contract (Path_of : string → Path)
    (parse_size : string → size_outcome) (fs : FS) (args : Namespace) :
  validate_args Path_of parse_size fs args = Passes ↔
  ns_check args = true ∨ ns_version args = true
  ∨ (truthy_str (ns_input args) = true
     ∧ truthy_str (ns_output args) = true
     ∧ 1 ≤ ns_batch args
     ∧ 1 ≤ ns_threads args
     ∧ 0 ≤ ns_compression_level args ≤ 9
     ∧ is_dir fs (Path_of (default "" (ns_input args))) = true
     ∧ (∀ c, c ∈ invalid_chars → char_in c (ns_prefix args) = false)
     ∧ (truthy_str (ns_split_size args) = true →
        ∃ bytes, parse_size (default "" (ns_split_size args)) = Size bytes)).
Proof.
  unfold validate_args.
  destruct (ns_check args); [cbn [orb]; split; auto|].
  destruct (ns_version args); [cbn [orb]; split; auto|].
  cbn [orb].
  assert (Hdir : is_dir fs (Path_of (default "" (ns_input args))) = true →
                 path_exists fs (Path_of (default "" (ns_input args))) = true).
  { unfold is_dir, path_exists. by destruct (fs !! _). }
  assert (Hchars : existsb (λ char, char_in char (ns_prefix args)) invalid_chars = false
                   ↔ ∀ c, c ∈ invalid_chars → char_in c (ns_prefix args) = false).
  { split.
    - intros Hex c Hc. destruct (char_in c (ns_prefix args)) eqn:E; [|done].
      assert (existsb (λ char, char_in char (ns_prefix args)) invalid_chars = true)
        as Hcontra; [|congruence].
      apply existsb_exists. exists c. by rewrite <- list_elem_of_In.
    - intros Hall. apply not_true_is_false. intros (c & Hc & Hin)%existsb_exists.
      apply list_elem_of_In in Hc. rewrite (Hall c Hc) in Hin. done. }
  destruct (truthy_str (ns_input args)); cbn [negb orb];
    [|split; [done|intros [?|[?|(? & _)]]; done]].
  destruct (truthy_str (ns_output args)); cbn [negb orb];
    [|split; [done|intros [?|[?|(_ & ? & _)]]; done]].
  destruct (Z.ltb_spec (ns_batch args) 1);
    [split; [done|intros [?|[?|(_ & _ & ? & _)]]; try done; lia]|].
  destruct (Z.ltb_spec (ns_threads args) 1);
    [split; [done|intros [?|[?|(_ & _ & _ & ? & _)]]; try done; lia]|].
  destruct (Z.ltb_spec (ns_compression_level args) 0); cbn [orb];
    [split; [done|intros [?|[?|(_ & _ & _ & _ & ? & _)]]; try done; lia]|].
  destruct (Z.ltb_spec 9 (ns_compression_level args));
    [split; [done|intros [?|[?|(_ & _ & _ & _ & ? & _)]]; try done; lia]|].
  destruct (path_exists fs (Path_of (default "" (ns_input args)))) eqn:Hex;
    cbn [negb];
    [|split; [done|intros [?|[?|(_ & _ & _ & _ & _ & ?%Hdir & _)]]; done]].
  destruct (is_dir fs (Path_of (default "" (ns_input args)))) eqn:Hd; cbn [negb];
    [|split; [done|intros [?|[?|(_ & _ & _ & _ & _ & ? & _)]]; done]].
  destruct (existsb (λ char, char_in char (ns_prefix args)) invalid_chars) eqn:Hp.
  { split; [done|]. intros [?|[?|(_ & _ & _ & _ & _ & _ & Hc%Hchars & _)]]; done. }
  clear Hp. pose proof (proj1 Hchars eq_refl) as Hp.
  destruct (truthy_str (ns_split_size args)).
  - destruct (parse_size (default "" (ns_split_size args))) as [n|e|w].
    + split; [|done]. intros _. do 2 right. repeat split; try done; try lia.
      by eauto.
    + split; [done|]. intros [?|[?|(_ & _ & _ & _ & _ & _ & _ & Hs)]]; try done.
      by destruct (Hs eq_refl).
    + split; [done|]. intros [?|[?|(_ & _ & _ & _ & _ & _ & _ & Hs)]]; try done.
      by destruct (Hs eq_refl).
  - split; [|done]. intros _. do 2 right. repeat split; try done; lia.
Qed.

Lemma validated_cases Path_of parse_size fs args :
  validate_args Path_of parse_size fs args = Passes →
  ns_check args = true ∨ ns_version args = true
  ∨ (truthy_str (ns_input args) = true
     ∧ truthy_str (ns_output args) = true
     ∧ 1 ≤ ns_batch args
     ∧ 1 ≤ ns_threads args
     ∧ 0 ≤ ns_compression_level args ≤ 9
     ∧ is_dir fs (Path_of (default "" (ns_input args))) = true).
Proof.
  unfold validate_args.
  destruct (ns_check args); [by auto|]. destruct (ns_version args); [by auto|].
  cbn [orb].
  destruct (truthy_str (ns_input args)); [|done].
  destruct (truthy_str (ns_output args)); [|done]. cbn [negb orb].
  destruct (Z.ltb_spec (ns_batch args) 1); [done|].
  destruct (Z.ltb_spec (ns_threads args) 1); [done|].
  destruct (Z.ltb_spec (ns_compression_level args) 0); [done|].
  destruct (Z.ltb_spec 9 (ns_compression_level args)); [done|]. cbn [orb].
  destruct (path_exists fs _); [|done]. cbn [negb].
  destruct (is_dir fs _); [|done]. intros _. do 2 right. repeat split; lia.
Qed.

Lemma validation_propagates Path_of parse_size fs args what :
  validate_args Path_of parse_size fs args = Propagates what →
  truthy_str (ns_split_size args) = true
  ∧ parse_size (default "" (ns_split_size args)) = OtherError what.
Proof.
  unfold validate_args.
  destruct (ns_check args || ns_version args); [done|].
  destruct (negb _ || negb _); [done|].
  destruct (ns_batch args <? 1); [done|].
  destruct (ns_threads args <? 1); [done|].
  destruct ((ns_compression_level args <? 0) || _); [done|].
  destruct (negb (path_exists fs _)); [done|].
  destruct (negb (is_dir fs _)); [done|].
  destruct (existsb _ invalid_chars); [done|].
  destruct (truthy_str (ns_split_size args)); [|done].
  destruct (parse_size _); try done. by intros [= ->].
Qed.

Lemma validated_batch_size Path_of parse_size fs args :
  validate_args Path_of parse_size fs args = Passes →
  ns_check args = false → ns_version args = false →
  (1 ≤ Z.to_nat (ns_batch args))%nat
  ∧ is_dir fs (Path_of (default "" (ns_input args))) = true.
Proof.
  intros Hv Hc Hver. apply validated_cases in Hv.
  destruct Hv as [?|[?|(_ & _ & ? & _ & _ & ?)]]; [congruence..|].
  split; [lia|done].
Qed.

Lemma elem_of_summary ev s f i o :
  ev ∈ main_trace (summary s f i o) → ∃ lvl msg, ev = MainLog lvl msg.
Proof.
  unfold summary. destruct (0 <? s + f); [|by intros ?%elem_of_nil].
  destruct (0 <? o), (0 <? f); cbn [main_trace];
    rewrite ?elem_of_app, ?elem_of_cons, ?elem_of_nil;
    intros H; repeat destruct H as [H|H]; subst; by eauto.
Qed.

Lemma elem_of_check_tools which ev :
  ev ∈ (check_tools which).2 → ∃ lvl msg, ev = MainLog lvl msg.
Proof.
  unfold check_tools. cbn [foldl snd].
  rewrite ?elem_of_app, ?elem_of_cons, ?elem_of_nil.
  intros H; repeat destruct H as [H|H]; subst; try done;
    repeat match goal with |- context [truthy_str ?x] => destruct (truthy_str x) end;
    by eauto.
Qed.

(** [main] starts to compress only after [validate_args] has let the
    command line through and 7z has been found, so only with a batch
    size and a number of threads of at least one, a compression level
    between 0 and 9 and an input that is a directory; the division by
    the batch size in line 387 therefore does not fail.  A command line
    that [parser.error] refuses ends with status 2 before anything is
    compressed. *)
Theorem compression_only_after_validation (fnmatch : string → string → bool)
    (Path_of : string → Path) (which : string → option string)
    (TQDM_AVAILABLE : bool) (parse_size : string → size_outcome)
    (env : Env) (fs : FS) (args : Namespace) :
  let m := main fnmatch Path_of which TQDM_AVAILABLE parse_size env fs args in
  let a := args_of Path_of args in
  (∀ ev, OfRun ev ∈ main_trace m →
     ns_version args = false ∧ ns_check args = false
     ∧ validate_args Path_of parse_size fs args = Passes
     ∧ truthy_str (which "7z") = true
     ∧ (1 ≤ batch_size a)%nat
     ∧ (1 ≤ threads a)%nat
     ∧ 0 ≤ compression_level a ≤ 9
     ∧ is_dir fs (input_folder a) = true
     ∧ result (compress_in_batches fnmatch env fs a) ≠ ZeroDivisionError)
  ∧ (∀ e, Usage e ∈ main_trace m →
       validate_args Path_of parse_size fs args = ParserError e
       ∧ exit_status m = SystemExit 2
       ∧ ∀ ev, ¬ OfRun ev ∈ main_trace m).
Proof.
  intros m a. subst m. unfold main.
  destruct (ns_version args) eqn:Hver.
  { cbn [main_trace exit_status]. split.
    - by intros ev ?%list_elem_of_singleton.
    - by intros e ?%list_elem_of_singleton. }
  destruct (validate_args Path_of parse_size fs args) as [|e|w] eqn:Hval.
  2:{ cbn [main_trace exit_status]. split.
      - intros ev. rewrite !elem_of_app, !elem_of_cons, !elem_of_nil.
        intros H; repeat destruct H as [H|H]; done.
      - intros e'. rewrite !elem_of_app, !elem_of_cons, !elem_of_nil.
        intros H; repeat destruct H as [H|H]; try done.
        injection H as ->. split; [done|]. split; [done|].
        intros ev. rewrite !elem_of_app, !elem_of_cons, !elem_of_nil.
        intros H; repeat destruct H as [H|H]; done. }
  2:{ cbn [main_trace exit_status]. split.
      - intros ev. rewrite !elem_of_cons, !elem_of_nil.
        intros H; repeat destruct H as [H|H]; done.
      - intros e'. rewrite !elem_of_cons, !elem_of_nil.
        intros H; repeat destruct H as [H|H]; done. }
  destruct (ns_check args) eqn:Hcheck.
  { cbn [main_trace exit_status]. split.
    - intros ev [Hin|Hin]%elem_of_app.
      + revert Hin. rewrite !elem_of_cons, !elem_of_nil.
        intros H; repeat destruct H as [H|H]; done.
      + by apply elem_of_check_tools in Hin as (? & ? & ?).
    - intros e' [Hin|Hin]%elem_of_app.
      + revert Hin. rewrite !elem_of_cons, !elem_of_nil.
        intros H; repeat destruct H as [H|H]; done.
      + by apply elem_of_check_tools in Hin as (? & ? & ?). }
  destruct (truthy_str (which "7z")) eqn:H7z; cbn [negb].
  2:{ cbn [main_trace exit_status]. split.
      - intros ev. rewrite !elem_of_app, !elem_of_cons, !elem_of_nil.
        intros H; repeat destruct H as [H|H]; done.
      - intros e'. rewrite !elem_of_app, !elem_of_cons, !elem_of_nil.
        intros H; repeat destruct H as [H|H]; done. }
  pose proof (validated_cases _ _ _ _ Hval) as [?|[?|(_ & _ & HB & HT & HL & Hdir)]];
    [congruence..|].
  assert (HBn : (1 ≤ batch_size a)%nat) by (subst a; cbn [args_of batch_size]; lia).
  destruct (run_returns fnmatch env fs a HBn) as (s & f & i & o & Hres & _).
  fold a. rewrite Hres. cbn [main_trace exit_status]. split.
  - intros ev _. repeat split; try done.
    + subst a. cbn [args_of threads]. lia.
    + subst a. cbn [args_of compression_level]. lia.
    + subst a. cbn [args_of compression_level]. lia.
  - intros e'. rewrite !elem_of_app. intros [[Hin|Hin]|Hin].
    + exfalso. destruct TQDM_AVAILABLE;
        rewrite ?elem_of_app, ?elem_of_cons, ?elem_of_nil in Hin;
        repeat destruct Hin as [Hin|Hin]; done.
    + by apply list_elem_of_fmap in Hin as (? & ? & _).
    + by apply elem_of_summary in Hin as (? & ? & ?).
Qed.

Lemma sumZ_indicator_pos {A} (c : A → bool) (l : list A) :
  0 < sumZ (λ x, indicator (c x)) l ↔ ∃ x, x ∈ l ∧ c x = true.
Proof.
  induction l as [|x l IH]; simpl.
  - split; [lia|]. by intros (? & ?%elem_of_nil & _).
  - assert (0 ≤ sumZ (λ x, indicator (c x)) l) as Hnn.
    { clear. induction l as [|y l IH]; simpl; [done|]. destruct (c y); simpl; lia. }
    destruct (c x) eqn:Hx; simpl.
    + split; [|lia]. intros _. exists x. split; [apply list_elem_of_here|done].
    + rewrite Z.add_0_l, IH. split.
      * intros (y & ? & ?). exists y. split; [by apply list_elem_of_further|done].
      * intros (y & [->|?]%elem_of_cons & ?); [congruence|by eauto].
Qed.

Lemma main_compresses fnmatch Path_of which tqdm parse_size env fs args :
  validate_args Path_of parse_size fs args = Passes →
  ns_check args = false → ns_version args = false →
  truthy_str (which "7z") = true →
  ∃ s f i o,
    result (compress_in_batches fnmatch env fs (args_of Path_of args)) = Returns s f i o
    ∧ 0 ≤ s ∧ 0 ≤ f
    ∧ main fnmatch Path_of which tqdm parse_size env fs args
      = mkMainRun (exit_status (summary s f i o))
          (((if tqdm
             then [SetupLogging (ns_logfile args) (ns_verbose args);
                   MainLog DEBUG (MVersion version_string)]
             else [SetupLogging (ns_logfile args) (ns_verbose args);
                   MainLog DEBUG (MVersion version_string)]
                  ++ [MainLog DEBUG MNoTqdm])
            ++ (OfRun <$> trace (compress_in_batches fnmatch env fs
                                   (args_of Path_of args))))
           ++ main_trace (summary s f i o)).
Proof.
  intros Hval Hcheck Hver H7z.
  destruct (validated_batch_size _ _ _ _ Hval Hcheck Hver) as [HB _].
  destruct (run_returns fnmatch env fs (args_of Path_of args) HB)
    as (s & f & i & o & Hres & Hs & Hf).
  exists s, f, i, o. split; [done|]. split; [done|]. split; [done|].
  unfold main. by rewrite Hver, Hval, Hcheck, H7z, Hres.
Qed.

(** The exit code of a command line that gets as far as compressing,
    given what the run returned.  When [compress_in_batches] has
    returned [s], [f], [i] and [o], [main] returns 1 if [f] is positive
    and 0 otherwise.  For a run that is confirmed and not a dry run this
    means: it returns 1 exactly when some batch of the plan failed to
    compress or failed verification.  A dry run reports no failure and
    [main] returns 0. *)
Theorem exit_code_reports_failure (fnmatch : string → string → bool)
    (Path_of : string → Path) (which : string → option string)
    (TQDM_AVAILABLE : bool) (parse_size : string → size_outcome)
    (env : Env) (fs : FS) (args : Namespace) (s f i o : Z) :
  validate_args Path_of parse_size fs args = Passes →
  ns_check args = false →
  ns_version args = false →
  truthy_str (which "7z") = true →
  mkdir_raises fs (output_folder (args_of Path_of args)) = false →
  result (compress_in_batches fnmatch env fs (args_of Path_of args))
  = Returns s f i o →
  let m := main fnmatch Path_of which TQDM_AVAILABLE parse_size env fs args in
  let a := args_of Path_of args in
  exit_status m = Return (if 0 <? f then 1 else 0)
  ∧ (ns_dry_run args = true → f = 0 ∧ exit_status m = Return 0)
  ∧ (completes_each_once env → ns_dry_run args = false →
     ns_auto args = true ∨ confirm env = "y" →
     (exit_status m = Return 1 ↔
      ∃ b, b ∈ (planned fnmatch fs a).1 ∧ succeeded env a b = false)).
Proof.
  intros Hval Hcheck Hver H7z _ Hres m a. subst m.
  destruct (main_compresses fnmatch Path_of which TQDM_AVAILABLE parse_size env fs
              args Hval Hcheck Hver H7z) as (s' & f' & i' & o' & Hres' & Hs & Hf & ->).
  rewrite Hres in Hres'. injection Hres' as <- <- <- <-.
  destruct (validated_batch_size _ _ _ _ Hval Hcheck Hver) as [HB _].
  fold a in Hres, HB |- *. cbn [exit_status].
  assert (Hexit : exit_status (summary s f i o) = Return (if 0 <? f then 1 else 0)).
  { unfold summary. destruct (Z.ltb_spec 0 (s + f)).
    - by destruct (0 <? o), (0 <? f).
    - by destruct (Z.ltb_spec 0 f); [lia|]. }
  rewrite Hexit. split; [done|]. split.
  - intros Hdry.
    destruct (dry_run_outcome fnmatch env fs a HB Hdry) as [Hr _].
    rewrite Hres in Hr. by injection Hr as _ -> _ _.
  - intros Hperm Hdry Hgo.
    pose proof (run_totals fnmatch env fs a Hperm HB Hdry Hgo) as Hr.
    rewrite Hres in Hr. injection Hr as _ -> _ _.
    destruct (Z.ltb_spec 0 (sumZ (λ b, indicator (negb (succeeded env a b)))
                              (planned fnmatch fs a).1)) as [Hpos|Hzero].
    + split; [|done]. intros _.
      apply sumZ_indicator_pos in Hpos as (b & Hb & Hn). exists b. split; [done|].
      by destruct (succeeded env a b).
    + split; [done|]. intros (b & Hb & Hn). exfalso.
      assert (0 < sumZ (λ b, indicator (negb (succeeded env a b)))
                    (planned fnmatch fs a).1); [|lia].
      apply sumZ_indicator_pos. exists b. by rewrite Hn.
Qed.

Lemma exit_code_reports_failure_witness :
  validate_args path_of_demo parse_size_demo fs_demo ns_demo = Passes
  ∧ ns_check ns_demo = false
  ∧ ns_version ns_demo = false
  ∧ truthy_str (which_demo "7z") = true
  ∧ mkdir_raises fs_demo (output_folder (args_of path_of_demo ns_demo)) = false
  ∧ result (compress_in_batches fnmatch_posix env_verify_fails fs_demo
              (args_of path_of_demo ns_demo)) = Returns 1 1 28 200
  ∧ exit_status (main fnmatch_posix path_of_demo which_demo true parse_size_demo
                   env_verify_fails fs_demo ns_demo)
    = Return 1.
Proof.
  split; [vm_compute; reflexivity|]. do 3 (split; [reflexivity|]).
  do 2 (split; [vm_compute; reflexivity|]).
  exact (proj1 (exit_code_reports_failure fnmatch_posix path_of_demo which_demo true
                  parse_size_demo env_verify_fails fs_demo ns_demo 1 1 28 200
                  ltac:(vm_compute; reflexivity) eq_refl eq_refl eq_refl
                  ltac:(vm_compute; reflexivity) ltac:(vm_compute; reflexivity))).
Defined.

Lemma summary_lines (s f i o : Z) :
  (∀ n, MainLog INFO (MTotalBatches n) ∈ main_trace (summary s f i o)
        ↔ 0 < s + f ∧ n = s + f)
  ∧ (∀ n, MainLog INFO (MOutputSize n) ∈ main_trace (summary s f i o)
          ↔ 0 < s + f ∧ 0 < o ∧ n = o)
  ∧ (0 ≤ s → MainLog WARNING MSomeFailed ∈ main_trace (summary s f i o) ↔ 0 < f)
  ∧ (MainLog INFO MSummary ∈ main_trace (summary s f i o) ↔ 0 < s + f).
Proof.
  unfold summary.
  destruct (Z.ltb_spec 0 (s + f)), (Z.ltb_spec 0 o), (Z.ltb_spec 0 f);
    cbn [main_trace]; (split; [|split; [|split]]);
    try intros n; try intros Hs; summary_line.
Qed.

(** The summary is logged only when the run counts at least one batch:
    the line with the total is there exactly when successes plus
    failures are positive, the line with the output size exactly when
    in addition the output size is positive, and the warning about
    failed batches exactly when there is a failure.  A declined run and
    a run with nothing to do log no summary. *)
Theorem summary_only_when_batches_counted (fnmatch : string → string → bool)
    (Path_of : string → Path) (which : string → option string)
    (TQDM_AVAILABLE : bool) (parse_size : string → size_outcome)
    (env : Env) (fs : FS) (args : Namespace) (s f i o : Z) :
  validate_args Path_of parse_size fs args = Passes →
  ns_check args = false →
  ns_version args = false →
  truthy_str (which "7z") = true →
  result (compress_in_batches fnmatch env fs (args_of Path_of args)) = Returns s f i o →
  let m := main fnmatch Path_of which TQDM_AVAILABLE parse_size env fs args in
  (∀ n, MainLog INFO (MTotalBatches n) ∈ main_trace m ↔ 0 < s + f ∧ n = s + f)
  ∧ (∀ n, MainLog INFO (MOutputSize n) ∈ main_trace m ↔ 0 < s + f ∧ 0 < o ∧ n = o)
  ∧ (MainLog WARNING MSomeFailed ∈ main_trace m ↔ 0 < f)
  ∧ (MainLog INFO MSummary ∈ main_trace m ↔ 0 < s + f).
Proof.
  intros Hval Hcheck Hver H7z Hres m. subst m.
  destruct (main_compresses fnmatch Path_of which TQDM_AVAILABLE parse_size env fs
              args Hval Hcheck Hver H7z) as (s' & f' & i' & o' & Hres' & Hs & Hf & ->).
  rewrite Hres in Hres'. injection Hres' as <- <- <- <-. cbn [main_trace].
  assert (Hpre : ∀ lvl msg,
            msg ≠ MVersion version_string → msg ≠ MNoTqdm →
            (MainLog lvl msg
             ∈ ((if TQDM_AVAILABLE
                 then [SetupLogging (ns_logfile args) (ns_verbose args);
                       MainLog DEBUG (MVersion version_string)]
                 else [SetupLogging (ns_logfile args) (ns_verbose args);
                       MainLog DEBUG (MVersion version_string)]
                      ++ [MainLog DEBUG MNoTqdm])
                ++ (OfRun <$> trace (compress_in_batches fnmatch env fs
                                       (args_of Path_of args))))
               ++ main_trace (summary s f i o))
            ↔ MainLog lvl msg ∈ main_trace (summary s f i o)).
  { intros lvl msg H1 H2. rewrite !elem_of_app. split; [|by auto].
    intros [[Hin|Hin]|Hin]; [| |done].
    - exfalso. destruct TQDM_AVAILABLE;
        rewrite ?elem_of_app, ?elem_of_cons, ?elem_of_nil in Hin;
        repeat destruct Hin as [Hin|Hin]; try done; congruence.
    - by apply list_elem_of_fmap in Hin as (? & ? & _). }
  destruct (summary_lines s f i o) as (L1 & L2 & L3 & L4).
  split; [|split; [|split]].
  - intros n. by rewrite Hpre.
  - intros n. by rewrite Hpre.
  - rewrite Hpre by done. by apply L3.
  - by rewrite Hpre.
Qed.

Lemma summary_only_when_batches_counted_witness :
  validate_args path_of_demo parse_size_demo fs_demo ns_demo = Passes
  ∧ ns_check ns_demo = false
  ∧ ns_version ns_demo = false
  ∧ truthy_str (which_demo "7z") = true
  ∧ result (compress_in_batches fnmatch_posix env_verify_fails fs_demo
              (args_of path_of_demo ns_demo)) = Returns 1 1 28 200
  ∧ MainLog INFO (MTotalBatches 2)
    ∈ main_trace (main fnmatch_posix path_of_demo which_demo true parse_size_demo
                    env_verify_fails fs_demo ns_demo).
Proof.
  split; [vm_compute; reflexivity|]. do 3 (split; [reflexivity|]).
  split; [vm_compute; reflexivity|].
  apply (proj1 (summary_only_when_batches_counted fnmatch_posix path_of_demo
                  which_demo true parse_size_demo env_verify_fails fs_demo ns_demo
                  1 1 28 200 ltac:(vm_compute; reflexivity) eq_refl eq_refl eq_refl
                  ltac:(vm_compute; reflexivity)) 2).
  split; [lia|reflexivity].
Defined.

(** With [--check], without [--version] and without [--config], and
    once [setup_logging] has opened the log file, [main] returns 0
    whatever the other arguments are and whether or not any tool is
    found; it compresses nothing.  For each of 7z, zip and rar,
    [check_tools] records what [shutil.which] says and logs that the
    tool was found, with its path, or a warning that it was not. *)
Theorem check_mode_reports_tools (fnmatch : string → string → bool)
    (Path_of : string → Path) (which : string → option string)
    (TQDM_AVAILABLE : bool) (parse_size : string → size_outcome)
    (env : Env) (fs : FS) (args : Namespace) (tool : string) :
  ns_version args = false →
  ns_check args = true →
  tool ∈ ["7z"; "zip"; "rar"] →
  let m := main fnmatch Path_of which TQDM_AVAILABLE parse_size env fs args in
  exit_status m = Return 0
  ∧ (∀ ev, ¬ OfRun ev ∈ main_trace m)
  ∧ (check_tools which).1 !! tool = Some (which tool)
  ∧ (∀ other, ¬ other ∈ ["7z"; "zip"; "rar"] → (check_tools which).1 !! other = None)
  ∧ (truthy_str (which tool) = true →
     MainLog INFO (MToolFound tool (default "" (which tool))) ∈ main_trace m)
  ∧ (truthy_str (which tool) = false →
     MainLog WARNING (MToolNotFound tool) ∈ main_trace m).
Proof.
  intros Hver Hcheck Htool m. subst m. unfold main, validate_args.
  rewrite Hver, Hcheck. cbn [orb exit_status main_trace].
  split; [done|]. split; [|split; [|split; [|split]]].
  - intros ev [Hin|Hin]%elem_of_app.
    + revert Hin. rewrite !elem_of_cons, !elem_of_nil.
      intros H; repeat destruct H as [H|H]; done.
    + by apply elem_of_check_tools in Hin as (? & ? & ?).
  - unfold check_tools. cbn [foldl fst].
    revert Htool. rewrite !elem_of_cons, !elem_of_nil.
    intros [->|[->|[->|[]]]]; by simplify_map_eq.
  - intros other Hother. unfold check_tools. cbn [foldl fst].
    revert Hother. rewrite !elem_of_cons, !elem_of_nil. intros Hother.
    rewrite !lookup_insert_ne by (intros <-; tauto). apply lookup_empty.
  - intros Hfound. unfold check_tools. cbn [foldl snd].
    revert Htool. rewrite !elem_of_cons, !elem_of_nil.
    intros [->|[->|[->|[]]]]; rewrite Hfound, !elem_of_app, !elem_of_cons; auto 20.
  - intros Hmissing. unfold check_tools. cbn [foldl snd].
    revert Htool. rewrite !elem_of_cons, !elem_of_nil.
    intros [->|[->|[->|[]]]]; rewrite Hmissing, !elem_of_app, !elem_of_cons; auto 20.
Qed.

Lemma check_mode_reports_tools_witness :
  ns_version ns_check_demo = false
  ∧ ns_check ns_check_demo = true
  ∧ "zip" ∈ ["7z"; "zip"; "rar"]
  ∧ exit_status (main fnmatch_posix path_of_demo which_demo true parse_size_demo
                   env_verify_fails fs_demo ns_check_demo) = Return 0.
Proof.
  assert (Hzip : "zip" ∈ ["7z"; "zip"; "rar"]) by (rewrite !elem_of_cons; auto).
  split; [reflexivity|]. split; [reflexivity|]. split; [exact Hzip|].
  exact (proj1 (check_mode_reports_tools fnmatch_posix path_of_demo which_demo true
                  parse_size_demo env_verify_fails fs_demo ns_check_demo "zip"
                  eq_refl eq_refl Hzip)).
Defined.

(** ** What the report holds *)

Lemma flat_map_records env a (bs : list Batch) :
  flat_map (record_if_succeeded env a) bs
  = (λ b, record_of b (default None (compressed env a b)))
    <$> List.filter (succeeded env a) bs.
Proof.
  induction bs as [|b bs IH]; [done|]. cbn [flat_map List.filter].
  rewrite IH. unfold record_if_succeeded, succeeded.
  destruct (compressed env a b) as [sz|] eqn:Hc.
  - rewrite bool_decide_eq_true_2 by (by eexists).
    destruct (verification_failed env a b); cbn [andb negb app]; [done|].
    by rewrite fmap_cons, Hc.
  - rewrite bool_decide_eq_false_2; [done|]. by intros [? ?].
Qed.

(** The records of the report stand in the order in which the batches
    completed, not in the order of their numbers: they are the records
    of the successful batches among the completed futures, in that
    order, each with the batch's number, archive name, file count,
    input size, reported archive size and file names. *)
Theorem report_records_in_completion_order (fnmatch : string → string → bool)
    (env : Env) (fs : FS) (a : Args) (path : string) (m : Metadata) :
  WriteJson path m ∈ trace (compress_in_batches fnmatch env fs a) →
  archives m
  = (λ b, {| rec_batch_num := batch_num b;
             rec_archive_name := name (archive_name b);
             rec_file_count := length (batch_files b);
             rec_input_size := batch_input_size b;
             rec_output_size := default None (compressed env a b);
             rec_files := name <$> batch_files b |})
    <$> List.filter (succeeded env a) (as_completed env (planned fnmatch fs a).1).
Proof.
  intros Hin. destruct (written_report _ _ _ _ _ _ Hin) as (_ & -> & _).
  unfold final_totals, execute.
  match goal with
  | |- context [foldl (collect env a) ?st ?bs] =>
      destruct (foldl_collect_totals env a st bs) as (_ & _ & _ & ->)
  end.
  cbn [fst appended app]. apply flat_map_records.
Qed.

Lemma report_records_in_completion_order_witness :
  ∃ m, WriteJson "report.json" m
         ∈ trace (compress_in_batches fnmatch_posix env_all_fine fs_demo args_demo)
       ∧ (rec_batch_num <$> archives m) = [2; 1]%nat.
Proof.
  eexists. split; [find_event|].
  rewrite (report_records_in_completion_order fnmatch_posix env_all_fine fs_demo
             args_demo "report.json" _ ltac:(find_event)).
  vm_compute. reflexivity.
Defined.

Lemma sumZ_flat_map {A B} (g : B → Z) (f : A → list B) (l : list A) :
  sumZ g (flat_map f l) = sumZ (λ x, sumZ g (f x)) l.
Proof.
  induction l as [|x l IH]; [done|]. cbn [flat_map].
  unfold sumZ in *. rewrite foldr_app. cbn [foldr]. rewrite <- IH.
  generalize (foldr (λ x acc, g x + acc) 0 (flat_map f l)). intros z.
  induction (f x) as [|y ys IHy]; simpl; [done|]. rewrite IHy. lia.
Qed.

(** Unless a batch was demoted by its verification, the total output
    size in the report is the sum of the output sizes of its records
    (a record without a size counting as zero). *)
Theorem report_total_matches_records (fnmatch : string → string → bool)
    (env : Env) (fs : FS) (a : Args) (path : string) (m : Metadata) :
  completes_each_once env →
  (∀ b, b ∈ (planned fnmatch fs a).1 → demoted env a b = false) →
  WriteJson path m ∈ trace (compress_in_batches fnmatch env fs a) →
  md_total_output_size m
  = Some (sumZ (λ r, default 0 (rec_output_size r)) (archives m)).
Proof.
  intros Hperm Hnone Hin.
  destruct (written_report _ _ _ _ _ _ Hin) as (_ & -> & -> & _). f_equal.
  unfold final_totals.
  destruct (execute_totals env a [] (planned fnmatch fs a).1 Hperm)
    as (_ & _ & -> & ->).
  rewrite sumZ_flat_map, (sumZ_Permutation _ _ _ (Hperm _)).
  assert (Hb : ∀ bs, (∀ b, b ∈ bs → demoted env a b = false) →
            sumZ (archive_size_of env a) bs
            = sumZ (λ b, sumZ (λ r, default 0 (rec_output_size r))
                           (record_if_succeeded env a b)) bs).
  { intros bs. induction bs as [|b bs IH]; intros Hall; [done|]. simpl.
    rewrite <- IH by (intros b' Hb'; apply Hall; by apply list_elem_of_further).
    f_equal.
    specialize (Hall b (list_elem_of_here _ _)).
    unfold demoted, archive_size_of, record_if_succeeded in *.
    destruct (compressed env a b) as [[z|]|]; simpl; try done.
    - rewrite bool_decide_eq_true_2 in Hall by (by eexists).
      simpl in Hall. rewrite Hall. simpl. lia.
    - rewrite bool_decide_eq_true_2 in Hall by (by eexists).
      simpl in Hall. by rewrite Hall. }
  by apply Hb.
Qed.

Lemma report_total_matches_records_witness :
  completes_each_once env_all_fine
  ∧ (∀ b, b ∈ (planned fnmatch_posix fs_demo args_demo).1 →
          demoted env_all_fine args_demo b = false)
  ∧ ∃ m, WriteJson "report.json" m
           ∈ trace (compress_in_batches fnmatch_posix env_all_fine fs_demo args_demo)
         ∧ md_total_output_size m = Some 200.
Proof.
  assert (Hperm : completes_each_once env_all_fine)
    by (intros bs; apply reverse_Permutation).
  assert (Hnone : ∀ b, b ∈ (planned fnmatch_posix fs_demo args_demo).1 →
                       demoted env_all_fine args_demo b = false).
  { intros b Hb. vm_compute in Hb.
    apply elem_of_cons in Hb as [->|Hb]; [vm_compute; reflexivity|].
    apply elem_of_cons in Hb as [->|Hb]; [vm_compute; reflexivity|].
    by apply elem_of_nil in Hb. }
  split; [exact Hperm|]. split; [exact Hnone|].
  eexists. split; [find_event|].
  rewrite (report_total_matches_records fnmatch_posix env_all_fine fs_demo args_demo
             "report.json" _ Hperm Hnone ltac:(find_event)).
  vm_compute. reflexivity.
Defined.
